(** * HibiAPI, the Bika endpoints: signed requests

    A shallow embedding of [hibiapi/api/bika/api.py]: the request signer
    [_sign], the authenticated call [request] and the thirteen exposed
    operations of [BikaEndpoints].

    Python [bytes] are lists of [byte], [str] is [string], a dict with a
    fixed key set is a record, and the coroutine [request] is a finite
    tree of the effects it performs (token read, login, clock, ambient
    headers, transport call, JSON decoding), so that the same definition
    can be run sequentially against any behaviour of its collaborators and
    interleaved with other calls at its suspension points. *)

From Stdlib Require Import ZArith NArith.
From Stdlib Require Import Strings.Byte Strings.Ascii Strings.String.
From stdpp Require Import base option list gmap strings.

Set Default Proof Using "Type".
Local Open Scope string_scope.
Local Open Scope list_scope.

(** ** Bytes and text *)

Abbreviation bytes := (list byte).

(** [str.encode()] on text; a literal [b"GET"] is written [encode "GET"]. *)
Definition encode (s : string) : bytes := list_byte_of_string s.

Definition byte_of_N (d : byte) (n : N) : byte :=
  match Byte.of_N n with Some b => b | None => d end.

(** [bytes.lower()]: the ASCII letters [A]..[Z] are mapped to [a]..[z],
    every other byte is kept. *)
Definition lower_byte (b : byte) : byte :=
  let n := Byte.to_N b in
  if ((65 <=? n) && (n <=? 90))%N then byte_of_N b (n + 32) else b.

Definition lower (s : bytes) : bytes := map lower_byte s.

(** [bytes.lstrip(chars)]: drops the longest prefix made of bytes of
    [chars]. *)
Fixpoint lstrip (chars s : bytes) : bytes :=
  match s with
  | [] => []
  | b :: r => if existsb (Byte.eqb b) chars then lstrip chars r else s
  end.

(** [.hexdigest()]: two lowercase hexadecimal digits per byte, high nibble
    first. *)
Definition hex_digit (n : N) : ascii :=
  if (n <? 10)%N then ascii_of_N (48 + n) else ascii_of_N (87 + n).

Definition hex_of_byte (b : byte) : list ascii :=
  let n := Byte.to_N b in [hex_digit (n / 16); hex_digit (n mod 16)].

Definition hexdigest (d : bytes) : string :=
  string_of_list_ascii (concat (map hex_of_byte d)).

Definition is_lower_hex (c : ascii) : bool :=
  let n := N_of_ascii c in
  (((48 <=? n) && (n <=? 57)) || ((97 <=? n) && (n <=? 102)))%N.

(** ** [hashlib] and [hmac] *)

(** A [hashlib] constructor as [hmac.new] uses it: its block size and its
    digest function. *)
Record HashAlg := {
  block_size : nat;
  digest : bytes -> bytes;
}.

Definition xor_byte (p b : byte) : byte :=
  byte_of_N b (N.lxor (Byte.to_N p) (Byte.to_N b)).

(** [hmac.new(key, msg, digestmod).digest()]: a key longer than a block is
    hashed first, then padded with zero bytes to a block; the message is
    hashed behind the key xor [0x36], and that digest behind the key xor
    [0x5c]. *)
Definition hmac_new (key msg : bytes) (digestmod : HashAlg) : bytes :=
  let k0 := if decide (block_size digestmod < length key)
            then digest digestmod key else key in
  let k := k0 ++ replicate (block_size digestmod - length k0) x00 in
  digest digestmod
    (map (xor_byte x5c) k ++ digest digestmod (map (xor_byte x36) k ++ msg)).

(** ** [httpx.URL] *)

(** Of a URL the code reads [raw_path] only: the request target as bytes. *)
Record URL := { raw_path : bytes }.

Definition lower_url (u : URL) : URL := {| raw_path := lower (raw_path u) |}.

(** ** The enumerations of the module *)

Module EndpointsType.
Inductive t :=
| collections | categories | keywords | advanced_search | category_list
| author_list | comic_detail | comic_recommendation | comic_episodes
| comic_page | comic_comments | games | game_detail.

Definition value (e : t) : string :=
  match e with
  | collections => "collections" | categories => "categories"
  | keywords => "keywords" | advanced_search => "advanced_search"
  | category_list => "category_list" | author_list => "author_list"
  | comic_detail => "comic_detail"
  | comic_recommendation => "comic_recommendation"
  | comic_episodes => "comic_episodes" | comic_page => "comic_page"
  | comic_comments => "comic_comments" | games => "games"
  | game_detail => "game_detail"
  end.
End EndpointsType.

Module ImageQuality.
Inductive t := low | medium | high | original.

Definition value (q : t) : string :=
  match q with
  | low => "low" | medium => "medium" | high => "high"
  | original => "original"
  end.
End ImageQuality.

Module ResultSort.
Inductive t :=
| date_descending | date_ascending | like_descending | views_descending.

Definition value (s : t) : string :=
  match s with
  | date_descending => "dd" | date_ascending => "da"
  | like_descending => "ld" | views_descending => "vd"
  end.
End ResultSort.

(** ** Values, errors and the objects passed around *)

(** The values the operations put in [params] and [body]
    ([Dict[str, Any]]): text, integers and members of [ResultSort]. *)
Inductive Value :=
| VStr (s : string)
| VInt (n : Z)
| VSort (s : ResultSort.t).

Abbreviation Dict := (list (string * Value)).

#[global] Instance ResultSort_eq_dec : EqDecision ResultSort.t.
Proof. solve_decision. Defined.
#[global] Instance EndpointsType_eq_dec : EqDecision EndpointsType.t.
Proof. solve_decision. Defined.
#[global] Instance Value_eq_dec : EqDecision Value.
Proof. solve_decision. Defined.

#[global] Instance ResultSort_countable : Countable ResultSort.t.
Proof.
  refine (inj_countable' (fun s => match s with
            | ResultSort.date_descending => 0 | ResultSort.date_ascending => 1
            | ResultSort.like_descending => 2 | ResultSort.views_descending => 3
            end)
          (fun n => match n with
            | 0 => ResultSort.date_descending | 1 => ResultSort.date_ascending
            | 2 => ResultSort.like_descending | _ => ResultSort.views_descending
            end) _).
  by intros [].
Defined.

#[global] Instance EndpointsType_countable : Countable EndpointsType.t.
Proof.
  refine (inj_countable' (fun e => match e with
            | EndpointsType.collections => 0 | EndpointsType.categories => 1
            | EndpointsType.keywords => 2 | EndpointsType.advanced_search => 3
            | EndpointsType.category_list => 4 | EndpointsType.author_list => 5
            | EndpointsType.comic_detail => 6
            | EndpointsType.comic_recommendation => 7
            | EndpointsType.comic_episodes => 8 | EndpointsType.comic_page => 9
            | EndpointsType.comic_comments => 10 | EndpointsType.games => 11
            | EndpointsType.game_detail => 12
            end)
          (fun n => match n with
            | 0 => EndpointsType.collections | 1 => EndpointsType.categories
            | 2 => EndpointsType.keywords | 3 => EndpointsType.advanced_search
            | 4 => EndpointsType.category_list | 5 => EndpointsType.author_list
            | 6 => EndpointsType.comic_detail
            | 7 => EndpointsType.comic_recommendation
            | 8 => EndpointsType.comic_episodes | 9 => EndpointsType.comic_page
            | 10 => EndpointsType.comic_comments | 11 => EndpointsType.games
            | _ => EndpointsType.game_detail
            end) _).
  by intros [].
Defined.

#[global] Instance Value_countable : Countable Value.
Proof.
  refine (inj_countable' (fun v => match v with
            | VStr s => inl s | VInt n => inr (inl n) | VSort s => inr (inr s)
            end)
          (fun x => match x with
            | inl s => VStr s | inr (inl n) => VInt n | inr (inr s) => VSort s
            end) _).
  by intros [].
Defined.

(** A decoded JSON document, what [response.json()] returns. *)
#[local] Unset Elimination Schemes.
Inductive JSON :=
| JNull
| JBool (b : bool)
| JInt (n : Z)
| JStr (s : string)
| JList (l : list JSON)
| JDict (l : list (string * JSON)).
#[local] Set Elimination Schemes.

(** Modelled from the spec: the exception classes are declared outside
    this module. A transport call fails by "connection refused, timeout,
    malformed response"; the kinds that reach a caller are the network
    error, the decoding error ("response body is not valid JSON"), the
    authentication error and the build error ("template/parameter
    mismatch"). *)
Inductive TransportFailure := ConnectionRefused | Timeout | MalformedResponse.

Inductive Exn :=
| TransportError (f : TransportFailure)
| NetworkError
| DecodeError
| AuthError
| BuildError.

Inductive Outcome (A : Type) :=
| Ok (a : A)
| Err (e : Exn).
Arguments Ok {A} a.
Arguments Err {A} e.

(** The [headers] dict of [request]: its five keys are fixed. [Time] and
    [Nonce] hold bytes, the other three text. *)
Record Headers := {
  Authorization : string;
  Time : bytes;
  Image_Quality : string;
  Nonce : bytes;
  Signature : string;
}.

(** An [httpx.Response], seen through its one method used here: [json()]
    returns the decoded body or raises. *)
Record Response := { json : Outcome JSON }.

(** ** Collaborators that are not part of this module *)

(** [BikaConstants]: the two keys and the host. *)
Class BikaConstants := {
  DIGEST_KEY : bytes;
  API_KEY : bytes;
  API_HOST : string;
}.

(** [hashlib.sha256] and [hashlib.md5]. *)
Class Hashlib := {
  sha256 : HashAlg;
  md5 : HashAlg;
}.

(** [BaseEndpoint._join(base, endpoint, params)]: the resolved URL, or an
    error when the template and the parameters do not fit. *)
Class BaseEndpoint := {
  _join : string -> string -> Dict -> Outcome URL;
}.

(** ** Calls of the exposed operations *)

(** One call of an exposed operation: the method and its keyword
    arguments. *)
Inductive Call :=
| Collections
| Categories
| Keywords
| AdvancedSearch (keyword : string) (page : Z) (sort : ResultSort.t)
| CategoryList (category : string) (page : Z) (sort : ResultSort.t)
| AuthorList (author : string) (page : Z) (sort : ResultSort.t)
| ComicDetail (id : string)
| ComicRecommendation (id : string)
| ComicEpisodes (id : string) (page : Z)
| ComicPage (id : string) (order page : Z)
| ComicComments (id : string) (page : Z)
| Games (page : Z)
| GameDetail (id : string).

Definition endpoint_of (c : Call) : EndpointsType.t :=
  match c with
  | Collections => EndpointsType.collections
  | Categories => EndpointsType.categories
  | Keywords => EndpointsType.keywords
  | AdvancedSearch _ _ _ => EndpointsType.advanced_search
  | CategoryList _ _ _ => EndpointsType.category_list
  | AuthorList _ _ _ => EndpointsType.author_list
  | ComicDetail _ => EndpointsType.comic_detail
  | ComicRecommendation _ => EndpointsType.comic_recommendation
  | ComicEpisodes _ _ => EndpointsType.comic_episodes
  | ComicPage _ _ _ => EndpointsType.comic_page
  | ComicComments _ _ => EndpointsType.comic_comments
  | Games _ => EndpointsType.games
  | GameDetail _ => EndpointsType.game_detail
  end.

(** The keyword arguments of a call, as a dict. *)
Definition kwargs (c : Call) : Dict :=
  match c with
  | Collections | Categories | Keywords => []
  | AdvancedSearch keyword page sort =>
      [("keyword", VStr keyword); ("page", VInt page); ("sort", VSort sort)]
  | CategoryList category page sort =>
      [("category", VStr category); ("page", VInt page); ("sort", VSort sort)]
  | AuthorList author page sort =>
      [("author", VStr author); ("page", VInt page); ("sort", VSort sort)]
  | ComicDetail id | ComicRecommendation id | GameDetail id =>
      [("id", VStr id)]
  | ComicEpisodes id page | ComicComments id page =>
      [("id", VStr id); ("page", VInt page)]
  | ComicPage id order page =>
      [("id", VStr id); ("order", VInt order); ("page", VInt page)]
  | Games page => [("page", VInt page)]
  end.

(** The key of a cache entry: "(operation identity, argument values)". *)
Abbreviation CacheKey := (EndpointsType.t * Dict)%type.

Definition cache_key (c : Call) : CacheKey := (endpoint_of c, kwargs c).

(** ** The coroutine as a tree of effects *)

(** What a coroutine of this module asks of the outside, with the type
    of the answer:
    - [GetToken], a read of [net_client.token];
    - [Login], [await net_client.login(self)];
    - [TimeNow], the text [f"{time():.0f}"];
    - [RequestHeaders], [request_headers.get()], given as its [.get(key)];
    - [ClientGet] and [ClientPost], [await self.client.get(url, headers=..)]
      and [await self.client.post(url, headers=.., json=..)];
    - [CacheLookup] and [CacheStore], the two accesses of the cache
      decorator to its store. *)
Inductive Event : Type -> Type :=
| GetToken : Event (option string)
| Login : Event unit
| TimeNow : Event string
| RequestHeaders : Event (string -> option string)
| ClientGet (url : URL) (headers : Headers) : Event Response
| ClientPost (url : URL) (headers : Headers) (body : Dict) : Event Response
| CacheLookup (key : CacheKey) : Event (option JSON)
| CacheStore (key : CacheKey) (value : JSON) (ttl : Z) : Event unit.

(** A coroutine: it returns, raises, or performs an effect and goes on
    with its outcome (an answer, or an exception raised there). *)
Inductive Prog (A : Type) : Type :=
| Ret (a : A)
| Raise (e : Exn)
| Vis {X : Type} (ev : Event X) (k : Outcome X -> Prog A).
Arguments Ret {A} a.
Arguments Raise {A} e.
Arguments Vis {A X} ev k.

Fixpoint bind {A B : Type} (p : Prog A) (f : A -> Prog B) : Prog B :=
  match p with
  | Ret a => f a
  | Raise e => Raise e
  | Vis ev k => Vis ev (fun o => bind (k o) f)
  end.

#[global] Instance Prog_ret : MRet Prog := @Ret.
#[global] Instance Prog_bind : MBind Prog := fun A B f p => bind p f.

(** An effect whose exception is not handled here: it propagates. *)
Definition trigger {X : Type} (ev : Event X) : Prog X :=
  Vis ev (fun o => match o with Ok x => Ret x | Err e => Raise e end).

(** A call that returns or raises without any effect. *)
Definition lift {A : Type} (o : Outcome A) : Prog A :=
  match o with Ok a => Ret a | Err e => Raise e end.

(** [try: p except e: h e]. *)
Fixpoint try_except {A : Type} (p : Prog A) (h : Exn -> Prog A) : Prog A :=
  match p with
  | Ret a => Ret a
  | Raise e => h e
  | Vis ev k => Vis ev (fun o => try_except (k o) h)
  end.

(** ** The decorators *)

(** Modelled from the spec: [hibiapi.utils.net.catch_network_error] is not
    part of the sources at hand. "Any transport-level failure (connection
    refused, timeout, malformed response) is caught and re-raised as a
    single uniform network-error kind"; every other exception passes
    unchanged. *)
Definition catch_network_error {A : Type} (p : Prog A) : Prog A :=
  try_except p (fun e =>
    match e with
    | TransportError _ => Raise NetworkError
    | _ => Raise e
    end).

(** [timedelta(days=n)], in seconds. *)
Definition timedelta_days (n : Z) : Z := (n * 86400)%Z.

(** Modelled from the spec: [hibiapi.utils.cache] is not part of the
    sources at hand. An operation carries a policy, a TTL or none. With a
    TTL: "On a cache hit within TTL, return the stored value without
    invoking [op]. On miss or expiry, invoke [op], store the result with
    expiry = now + T, return it." Without one the operation is "never
    cached (always invoke [op])". *)
Inductive CachePolicy :=
| Cached (T : Z) (key : CacheKey)
| Exempt.

(** Modelled from the spec: the decorator of [hibiapi.utils.cache], by the
    policy of the operation it wraps. *)
Definition with_cache (policy : CachePolicy) (op : Prog JSON) : Prog JSON :=
  match policy with
  | Exempt => op
  | Cached T key =>
      hit ← trigger (CacheLookup key);
      match hit with
      | Some v => mret v
      | None =>
          v ← op;
          trigger (CacheStore key v T);;
          mret v
      end
  end.

(** Modelled from the spec: [hibiapi.utils.cache.cache_config(ttl=..)],
    the policy with a TTL, for the entry of the call at hand. *)
Definition cache_config (ttl : Z) (key : CacheKey) : Prog JSON -> Prog JSON :=
  with_cache (Cached ttl key).

(** Modelled from the spec: [hibiapi.utils.cache.disable_cache], "always
    cache-exempt". *)
Definition disable_cache : Prog JSON -> Prog JSON :=
  with_cache Exempt.

(** ** [BikaEndpoints] *)

Section BikaEndpoints.
Context {constants : BikaConstants} {hashlib : Hashlib} {base : BaseEndpoint}.

Definition _sign (url : URL) (timestamp_bytes nonce method : bytes) : string :=
  hexdigest
    (hmac_new DIGEST_KEY
       (lower (lstrip (encode "/") (raw_path url)
               ++ timestamp_bytes ++ nonce ++ method ++ API_KEY))
       sha256).

(** The body of [request], under its two decorators. *)
Definition request_wrapped (endpoint : string) (params body : option Dict)
    (no_token : bool) : Prog JSON :=
  token ← trigger GetToken;
  (if bool_decide (token = None) && negb no_token
   then trigger Login else mret tt);;
  token ← trigger GetToken;
  now ← trigger TimeNow;
  let current_time := encode now in
  ctx ← trigger RequestHeaders;
  let nonce := encode (hexdigest (digest md5 current_time)) in
  request_url ← lift (_join API_HOST endpoint (default [] params));
  let headers := {|
    Authorization := default "" token;
    Time := current_time;
    Image_Quality :=
      default (ImageQuality.value ImageQuality.medium)
              (ctx "X-Image-Quality");
    Nonce := nonce;
    Signature :=
      _sign request_url current_time nonce
            (if body is None then encode "GET" else encode "POST");
  |} in
  response ← (match body with
              | None => trigger (ClientGet request_url headers)
              | Some b => trigger (ClientPost request_url headers b)
              end);
  lift (json response).

(** [@disable_cache @catch_network_error async def request(...)]. *)
Definition request (endpoint : string) (params body : option Dict)
    (no_token : bool) : Prog JSON :=
  disable_cache
    (catch_network_error (request_wrapped endpoint params body no_token)).

Definition collections : Prog JSON :=
  cache_config (timedelta_days 1) (cache_key Collections)
    (request "collections" None None false).

Definition categories : Prog JSON :=
  cache_config (timedelta_days 3) (cache_key Categories)
    (request "categories" None None false).

Definition keywords : Prog JSON :=
  cache_config (timedelta_days 3) (cache_key Keywords)
    (request "keywords" None None false).

Definition advanced_search (keyword : string) (page : Z)
    (sort : ResultSort.t) : Prog JSON :=
  request "comics/advanced-search" None
    (Some [("keyword", VStr keyword); ("page", VInt page);
           ("sort", VSort sort)])
    false.

Definition category_list (category : string) (page : Z)
    (sort : ResultSort.t) : Prog JSON :=
  request "comics"
    (Some [("page", VInt page); ("c", VStr category); ("s", VSort sort)])
    None false.

Definition author_list (author : string) (page : Z)
    (sort : ResultSort.t) : Prog JSON :=
  request "comics"
    (Some [("page", VInt page); ("a", VStr author); ("s", VSort sort)])
    None false.

Definition comic_detail (id : string) : Prog JSON :=
  cache_config (timedelta_days 3) (cache_key (ComicDetail id))
    (request "comics/{id}" (Some [("id", VStr id)]) None false).

Definition comic_recommendation (id : string) : Prog JSON :=
  request "comics/{id}/recommendation" (Some [("id", VStr id)]) None false.

Definition comic_episodes (id : string) (page : Z) : Prog JSON :=
  request "comics/{id}/eps"
    (Some [("id", VStr id); ("page", VInt page)]) None false.

Definition comic_page (id : string) (order page : Z) : Prog JSON :=
  request "comics/{id}/order/{order}/pages"
    (Some [("id", VStr id); ("order", VInt order); ("page", VInt page)])
    None false.

Definition comic_comments (id : string) (page : Z) : Prog JSON :=
  request "comics/{id}/comments"
    (Some [("id", VStr id); ("page", VInt page)]) None false.

Definition games (page : Z) : Prog JSON :=
  request "games" (Some [("page", VInt page)]) None false.

Definition game_detail (id : string) : Prog JSON :=
  cache_config (timedelta_days 3) (cache_key (GameDetail id))
    (request "games/{id}" (Some [("id", VStr id)]) None false).

Definition invoke (c : Call) : Prog JSON :=
  match c with
  | Collections => collections
  | Categories => categories
  | Keywords => keywords
  | AdvancedSearch keyword page sort => advanced_search keyword page sort
  | CategoryList category page sort => category_list category page sort
  | AuthorList author page sort => author_list author page sort
  | ComicDetail id => comic_detail id
  | ComicRecommendation id => comic_recommendation id
  | ComicEpisodes id page => comic_episodes id page
  | ComicPage id order page => comic_page id order page
  | ComicComments id page => comic_comments id page
  | Games page => games page
  | GameDetail id => game_detail id
  end.

End BikaEndpoints.

(** ** Running a coroutine *)

(** An effect as an observer names it. *)
Inductive Label :=
| LGetToken
| LLogin
| LTimeNow
| LRequestHeaders
| LClientGet (url : URL) (headers : Headers)
| LClientPost (url : URL) (headers : Headers) (body : Dict)
| LCacheLookup (key : CacheKey)
| LCacheStore (key : CacheKey) (value : JSON) (ttl : Z).

Definition label {X : Type} (ev : Event X) : Label :=
  match ev with
  | GetToken => LGetToken
  | Login => LLogin
  | TimeNow => LTimeNow
  | RequestHeaders => LRequestHeaders
  | ClientGet url headers => LClientGet url headers
  | ClientPost url headers body => LClientPost url headers body
  | CacheLookup key => LCacheLookup key
  | CacheStore key value ttl => LCacheStore key value ttl
  end.

Definition is_login (l : Label) : bool :=
  match l with LLogin => true | _ => false end.

Definition is_transport (l : Label) : bool :=
  match l with LClientGet _ _ | LClientPost _ _ _ => true | _ => false end.

Definition is_cache_access (l : Label) : bool :=
  match l with LCacheLookup _ | LCacheStore _ _ _ => true | _ => false end.

(** The headers a transport call was made with. *)
Definition sent_headers (l : Label) : option Headers :=
  match l with
  | LClientGet _ headers | LClientPost _ headers _ => Some headers
  | _ => None
  end.

(** What a run leaves behind: each effect with its outcome. *)
Inductive Obs : Type :=
| Observed {X : Type} (ev : Event X) (o : Outcome X).

Definition obs_label (ob : Obs) : Label :=
  match ob with Observed ev _ => label ev end.

(** The exception an effect raised, if it did. *)
Definition raised (ob : Obs) : option Exn :=
  match ob with
  | Observed _ (Err e) => Some e
  | Observed _ (Ok _) => None
  end.

(** The token a read of [net_client.token] found. *)
Definition token_read (ob : Obs) : option (option string) :=
  match ob with
  | Observed ev o =>
      match ev in Event X return Outcome X -> option (option string) with
      | GetToken => fun o => match o with Ok t => Some t | Err _ => None end
      | _ => fun _ => None
      end o
  end.

(** The response a transport call came back with. *)
Definition response_of (ob : Obs) : option Response :=
  match ob with
  | Observed ev o =>
      match ev in Event X return Outcome X -> option Response with
      | ClientGet _ _ | ClientPost _ _ _ =>
          fun o => match o with Ok r => Some r | Err _ => None end
      | _ => fun _ => None
      end o
  end.

(** The behaviour of everything outside this module, over a state [W] of
    its own: the token of the net client and its [login], the clock, the
    ambient request headers, the HTTP client, and the clock of the cache
    (in seconds). [login] and the client may change [W] and may raise. *)
Record Collab (W : Type) := {
  net_token : W -> option string;
  net_login : W -> Outcome unit * W;
  time_0f : W -> string;
  request_headers : W -> string -> option string;
  client_get : URL -> Headers -> W -> Outcome Response * W;
  client_post : URL -> Headers -> Dict -> W -> Outcome Response * W;
  cache_now : W -> Z;
}.
Arguments net_token {W} c w.
Arguments net_login {W} c w.
Arguments time_0f {W} c w.
Arguments request_headers {W} c w key.
Arguments client_get {W} c url headers w.
Arguments client_post {W} c url headers body w.
Arguments cache_now {W} c w.

(** The state a run threads: the outside and the cache store, each entry
    a value with its expiry time. *)
Record State (W : Type) := {
  world : W;
  cache : gmap CacheKey (JSON * Z);
}.
Arguments world {W} s.
Arguments cache {W} s.

Section Run.
Context {W : Type} (c : Collab W).

Definition set_world (w : W) (s : State W) : State W :=
  {| world := w; cache := cache s |}.

Definition set_cache (m : gmap CacheKey (JSON * Z)) (s : State W) : State W :=
  {| world := world s; cache := m |}.

(** Modelled from the spec: the store of [hibiapi.utils.cache]. A lookup
    answers with the value of an entry that has not expired and evicts
    one that has; a store sets the expiry to now + T. *)
Definition cache_lookup (key : CacheKey) (s : State W)
  : option JSON * State W :=
  match cache s !! key with
  | Some (v, expiry) =>
      if bool_decide (cache_now c (world s) < expiry)%Z
      then (Some v, s)
      else (None, set_cache (delete key (cache s)) s)
  | None => (None, s)
  end.

(** Modelled from the spec: the store of [hibiapi.utils.cache], "store the
    result with expiry = now + T". *)
Definition cache_store (key : CacheKey) (v : JSON) (T : Z) (s : State W)
  : State W :=
  set_cache (<[key := (v, (cache_now c (world s) + T)%Z)]> (cache s)) s.

(** The outcome of one effect and the state after it. *)
Definition handle {X : Type} (ev : Event X) (s : State W)
  : Outcome X * State W :=
  match ev in Event X return Outcome X * State W with
  | GetToken => (Ok (net_token c (world s)), s)
  | Login =>
      let '(o, w) := net_login c (world s) in (o, set_world w s)
  | TimeNow => (Ok (time_0f c (world s)), s)
  | RequestHeaders => (Ok (request_headers c (world s)), s)
  | ClientGet url headers =>
      let '(o, w) := client_get c url headers (world s) in (o, set_world w s)
  | ClientPost url headers body =>
      let '(o, w) := client_post c url headers body (world s) in
      (o, set_world w s)
  | CacheLookup key =>
      let '(hit, s') := cache_lookup key s in (Ok hit, s')
  | CacheStore key v T => (Ok tt, cache_store key v T s)
  end.

(** A coroutine run to its end, with nothing else running in between:
    its outcome, the state it leaves and the effects it performed, in
    order. *)
Fixpoint run {A : Type} (p : Prog A) (s : State W)
  : Outcome A * State W * list Obs :=
  match p with
  | Ret a => (Ok a, s, [])
  | Raise e => (Err e, s, [])
  | Vis ev k =>
      let '(o, s1) := handle ev s in
      let '(r, s2, tr) := run (k o) s1 in
      (r, s2, Observed ev o :: tr)
  end.

Definition outcome_of {A : Type} (r : Outcome A * State W * list Obs)
  : Outcome A := r.1.1.
Definition state_of {A : Type} (r : Outcome A * State W * list Obs)
  : State W := r.1.2.
Definition trace_of {A : Type} (r : Outcome A * State W * list Obs)
  : list Obs := r.2.
Definition labels_of {A : Type} (r : Outcome A * State W * list Obs)
  : list Label := map obs_label r.2.

(** What a cached operation amounts to, by the state of its entry: a
    fresh entry is served with the lookup as the only effect; with no
    entry, or an expired one that the lookup evicts, the run [r0] of the
    operation takes place in between the lookup and the store of the value
    it returned. *)
Definition served (key : CacheKey) (v : JSON) (s : State W)
  : Outcome JSON * State W * list Obs :=
  (Ok v, s, [Observed (CacheLookup key) (Ok (Some v))]).

Definition evicted (key : CacheKey) (s : State W) : State W :=
  set_cache (delete key (cache s)) s.

Definition refreshed (key : CacheKey) (T : Z)
    (r0 : Outcome JSON * State W * list Obs)
  : Outcome JSON * State W * list Obs :=
  match outcome_of r0 with
  | Ok v =>
      (Ok v, cache_store key v T (state_of r0),
       Observed (CacheLookup key) (Ok None)
         :: trace_of r0 ++ [Observed (CacheStore key v T) (Ok tt)])
  | Err e =>
      (Err e, state_of r0,
       Observed (CacheLookup key) (Ok None) :: trace_of r0)
  end.

Definition absent_or_expired (key : CacheKey) (s : State W) : Prop :=
  cache s !! key = None
  ∨ ∃ v expiry, cache s !! key = Some (v, expiry)
                ∧ (expiry < cache_now c (world s))%Z.

(** ** Several coroutines on one event loop *)

(** The effects a coroutine is suspended on: the awaited calls that reach
    the network. The reads in between do not yield to the event loop. *)
Definition suspends {X : Type} (ev : Event X) : bool :=
  match ev with
  | Login | ClientGet _ _ | ClientPost _ _ _ => true
  | _ => false
  end.

Inductive Task (A : Type) : Type :=
| Runnable (p : Prog A)
| Awaiting {X : Type} (ev : Event X) (k : Outcome X -> Prog A)
| Finished (o : Outcome A).
#[global] Arguments Runnable {A} p.
#[global] Arguments Awaiting {A X} ev k.
#[global] Arguments Finished {A} o.

(** One turn of a task: it runs until it is suspended on an awaited call,
    which is issued at that point, or until it ends. *)
Fixpoint advance {A : Type} (p : Prog A) (s : State W)
  : Task A * State W * list Label :=
  match p with
  | Ret a => (Finished (Ok a), s, [])
  | Raise e => (Finished (Err e), s, [])
  | Vis ev k =>
      if suspends ev then (Awaiting ev k, s, [label ev])
      else
        let '(o, s1) := handle ev s in
        let '(t, s2, tr) := advance (k o) s1 in
        (t, s2, label ev :: tr)
  end.

(** The tasks of the loop, the state they share and the effects issued so
    far. *)
Record Pool := {
  tasks : list (Task JSON);
  shared : State W;
  issued : list Label;
}.

(** The loop gives task [i] its turn: a new task starts; a suspended one
    sees its awaited call complete, with the outcome and the effect on the
    outside it has at that moment, and runs on. *)
Definition resume (t : Task JSON) (s : State W)
  : Task JSON * State W * list Label :=
  match t with
  | Runnable p => advance p s
  | Awaiting ev k => let '(o, s1) := handle ev s in advance (k o) s1
  | Finished o => (Finished o, s, [])
  end.

Definition turn (pl : Pool) (i : nat) : Pool :=
  match tasks pl !! i with
  | Some t =>
      let '(t', s', tr) := resume t (shared pl) in
      {| tasks := <[i := t']> (tasks pl);
         shared := s';
         issued := issued pl ++ tr |}
  | None => pl
  end.

Definition schedule (pl : Pool) (order : list nat) : Pool :=
  foldl turn pl order.

Definition awaits_login (t : Task JSON) : bool :=
  match t with
  | Awaiting ev _ => is_login (label ev)
  | _ => false
  end.

End Run.

(** ** What is observed of a run *)

(** How many of the effects satisfy [f]. *)
Definition count_labels (f : Label -> bool) (l : list Label) : nat :=
  length (List.filter f l).

Section Observations.
Context {constants : BikaConstants} {hashlib : Hashlib}.

(** What a transport call must look like for a request made with [body]:
    a GET signed with [b"GET"] when there is none, a POST carrying the
    body and signed with [b"POST"] when there is one. *)
Definition method_matches_body (body : option Dict) (l : Label) : Prop :=
  match l with
  | LClientGet url headers =>
      body = None
      ∧ Signature headers
        = _sign url (Time headers) (Nonce headers) (encode "GET")
  | LClientPost url headers sent =>
      body = Some sent
      ∧ Signature headers
        = _sign url (Time headers) (Nonce headers) (encode "POST")
  | _ => True
  end.

End Observations.

(** A transport call as the claim on methods has it for an operation: a
    POST only from [advanced_search], a GET only from the others. *)
Definition posts_only_for_search (e : EndpointsType.t) (l : Label) : Prop :=
  match l with
  | LClientPost _ _ _ => e = EndpointsType.advanced_search
  | LClientGet _ _ => e ≠ EndpointsType.advanced_search
  | _ => True
  end.

(** The exception [request] ends with when [e] is raised inside it. *)
Definition surfaced (e : Exn) : Exn :=
  match e with
  | TransportError _ => NetworkError
  | _ => e
  end.

Section LoopObservations.
Context {constants : BikaConstants} {hashlib : Hashlib} {base : BaseEndpoint}.
Context {W : Type} (c : Collab W).

(** The arguments of a call of [request] with [no_token] left false. *)
Definition RequestArgs : Type := string * option Dict * option Dict.

Definition request_task (a : RequestArgs) : Task JSON :=
  let '(endpoint, params, body) := a in
  Runnable (request endpoint params body false).

(** A loop on which the calls [calls] have been created and none has run
    yet. *)
Definition spawn (calls : list RequestArgs) (s : State W) : Pool :=
  {| tasks := map request_task calls; shared := s; issued := [] |}.

Definition awaits_transport (t : Task JSON) : bool :=
  match t with
  | Awaiting ev _ => is_transport (label ev)
  | _ => false
  end.

(** A caller suspended on its login goes by the outcome of that login,
    whenever it completes (in a state [s'] of the loop): if it raises,
    the caller ends with that exception (a transport failure as the
    network error) and issues nothing; if it returns, the caller reads the
    token then stored and, unless [_join] fails, issues its transport
    call with that token (or the empty text) as [Authorization]. *)
Definition follows_own_login (a : RequestArgs) (t : Task JSON) : Prop :=
  let '(endpoint, params, body) := a in
  ∀ s' : State W,
    let '(t', s'', tr) := resume c t s' in
    match net_login c (world s') with
    | (Err e, w) =>
        t' = Finished (Err (surfaced e)) ∧ s'' = set_world w s' ∧ tr = []
    | (Ok _, w) =>
        s'' = set_world w s'
        ∧ match _join API_HOST endpoint (default [] params) with
          | Err e =>
              t' = Finished (Err (surfaced e))
              ∧ count_labels is_transport tr = 0
          | Ok url =>
              awaits_transport t' = true
              ∧ ∃ h sent,
                  tr = [LGetToken; LTimeNow; LRequestHeaders; sent]
                  ∧ sent_headers sent = Some h
                  ∧ Authorization h
                    = match net_token c w with Some t => t | None => "" end
                  ∧ method_matches_body body sent
          end
    end.

End LoopObservations.

(** The cache TTL each operation is declared with, in seconds. *)
Definition declared_ttl (e : EndpointsType.t) : option Z :=
  match e with
  | EndpointsType.collections => Some (1 * 86400)%Z
  | EndpointsType.categories | EndpointsType.keywords
  | EndpointsType.comic_detail | EndpointsType.game_detail =>
      Some (3 * 86400)%Z
  | _ => None
  end.

(** ** A small concrete setting to run the definitions in

    Stand-ins for the collaborators, used by the worked examples only: a
    checksum in place of the hash functions, short keys, a [_join] that
    puts the endpoint behind a slash, and an outside whose answers are
    fields of its state: [d_login] lists what the successive calls of
    [login] answer, a token stored on success or an exception. *)

Definition demo_checksum (m : bytes) : bytes :=
  [byte_of_N x00 (fold_right (fun b acc => (Byte.to_N b + acc) mod 256) 0 m)%N;
   byte_of_N x00 (fold_right (fun b acc => N.lxor (Byte.to_N b) acc) 0 m)%N].

Definition demo_hash : HashAlg :=
  {| block_size := 4; digest := demo_checksum |}.

Definition demo_constants : BikaConstants :=
  {| DIGEST_KEY := encode "Key"; API_KEY := encode "C69";
     API_HOST := "https://host" |}.

Definition demo_hashlib : Hashlib :=
  {| sha256 := demo_hash; md5 := demo_hash |}.

Definition demo_endpoint : BaseEndpoint :=
  {| _join := fun base endpoint params =>
       Ok {| raw_path := encode ("/" +:+ endpoint) |} |}.

Record DemoWorld := {
  d_token : option string;
  d_login : list (Outcome string);
  d_time : string;
  d_quality : option string;
  d_reply : Outcome Response;
  d_clock : Z;
}.

Definition demo_collab : Collab DemoWorld := {|
  net_token := d_token;
  net_login := fun w =>
    let after token :=
      {| d_token := token; d_login := tail (d_login w);
         d_time := d_time w; d_quality := d_quality w;
         d_reply := d_reply w; d_clock := d_clock w |} in
    match d_login w with
    | Ok t :: _ => (Ok tt, after (Some t))
    | Err e :: _ => (Err e, after (d_token w))
    | [] => (Err AuthError, w)
    end;
  time_0f := d_time;
  request_headers := fun w key =>
    if bool_decide (key = "X-Image-Quality") then d_quality w else None;
  client_get := fun _ _ w => (d_reply w, w);
  client_post := fun _ _ _ w => (d_reply w, w);
  cache_now := d_clock;
|}.

Definition demo_world : DemoWorld := {|
  d_token := None;
  d_login := [Ok "tok"];
  d_time := "1700000000";
  d_quality := None;
  d_reply := Ok {| json := Ok (JDict [("code", JInt 200)]) |};
  d_clock := 1700000000;
|}.

Definition demo_state (w : DemoWorld) : State DemoWorld :=
  {| world := w; cache := ∅ |}.

(** The same outside with other answers: a token already stored, a caller
    asking for an image quality that [ImageQuality] does not have, a
    transport that times out, a body that is not JSON, a first login that
    is refused, and a later hour. *)
Definition demo_with_token (t : string) (w : DemoWorld) : DemoWorld :=
  {| d_token := Some t; d_login := d_login w; d_time := d_time w;
     d_quality := d_quality w; d_reply := d_reply w; d_clock := d_clock w |}.

Definition demo_with_quality (q : string) (w : DemoWorld) : DemoWorld :=
  {| d_token := d_token w; d_login := d_login w; d_time := d_time w;
     d_quality := Some q; d_reply := d_reply w; d_clock := d_clock w |}.

Definition demo_with_reply (r : Outcome Response) (w : DemoWorld) : DemoWorld :=
  {| d_token := d_token w; d_login := d_login w; d_time := d_time w;
     d_quality := d_quality w; d_reply := r; d_clock := d_clock w |}.

Definition demo_with_logins (l : list (Outcome string)) (w : DemoWorld)
  : DemoWorld :=
  {| d_token := d_token w; d_login := l; d_time := d_time w;
     d_quality := d_quality w; d_reply := d_reply w; d_clock := d_clock w |}.

Definition demo_at (clock : Z) (w : DemoWorld) : DemoWorld :=
  {| d_token := d_token w; d_login := d_login w; d_time := d_time w;
     d_quality := d_quality w; d_reply := d_reply w; d_clock := clock |}.

(** A [_join] that rejects every template. *)
Definition demo_failing_endpoint : BaseEndpoint :=
  {| _join := fun base endpoint params => Err BuildError |}.

(** ** Reading a hexadecimal rendering back *)

(** The value of a hexadecimal digit, in either case. *)
Definition hex_value (c : ascii) : option N :=
  let n := N_of_ascii c in
  if ((48 <=? n) && (n <=? 57))%N then Some (n - 48)%N
  else if ((97 <=? n) && (n <=? 102))%N then Some (n - 87)%N
  else if ((65 <=? n) && (n <=? 70))%N then Some (n - 55)%N
  else None.

(** [bytes.fromhex] on text without blanks: two digits per byte, [None]
    for an odd number of digits or a character that is no digit. *)
Fixpoint unhexlify (l : list ascii) : option bytes :=
  match l with
  | [] => Some []
  | [_] => None
  | hi :: lo :: rest =>
      match hex_value hi, hex_value lo, unhexlify rest with
      | Some h, Some l, Some bs =>
          match Byte.of_N (16 * h + l) with
          | Some b => Some (b :: bs)
          | None => None
          end
      | _, _, _ => None
      end
  end.

Definition fromhex (s : string) : option bytes :=
  unhexlify (list_ascii_of_string s).

(** ** More to observe of a transport call *)

Definition is_post (l : Label) : bool :=
  match l with LClientPost _ _ _ => true | _ => false end.

Definition is_time_read (l : Label) : bool :=
  match l with LTimeNow => true | _ => false end.

(** What follows the first effect that satisfies [f]. *)
Fixpoint after_first (f : Label -> bool) (l : list Label) : list Label :=
  match l with
  | [] => []
  | x :: rest => if f x then rest else after_first f rest
  end.

(** The URL a transport call was made to. *)
Definition transport_url (l : Label) : option URL :=
  match l with
  | LClientGet url _ | LClientPost url _ _ => Some url
  | _ => None
  end.

Section MoreObservations.
Context {constants : BikaConstants} {hashlib : Hashlib}.

(** The signature of a transport call, from what is on the wire: the URL,
    the [Time] and [Nonce] headers as sent, and the method in lower
    case. *)
Definition wire_signature (url : URL) (h : Headers) (method : string)
  : string :=
  hexdigest
    (hmac_new DIGEST_KEY
       (lower (lstrip (encode "/") (raw_path url)) ++ lower (Time h)
        ++ Nonce h ++ encode method ++ lower API_KEY)
       sha256).

Definition signed_as_sent (l : Label) : Prop :=
  match l with
  | LClientGet url h => Signature h = wire_signature url h "get"
  | LClientPost url h _ => Signature h = wire_signature url h "post"
  | _ => True
  end.

End MoreObservations.

(** ** Looking a member up by its value *)

(** The members of each enumeration in the order of their declaration,
    and the call of the class on a value, [ResultSort("dd")]: the first
    member with that value, if there is one. *)
Definition EndpointsType_members : list EndpointsType.t :=
  [EndpointsType.collections; EndpointsType.categories;
   EndpointsType.keywords; EndpointsType.advanced_search;
   EndpointsType.category_list; EndpointsType.author_list;
   EndpointsType.comic_detail; EndpointsType.comic_recommendation;
   EndpointsType.comic_episodes; EndpointsType.comic_page;
   EndpointsType.comic_comments; EndpointsType.games;
   EndpointsType.game_detail].

Definition ImageQuality_members : list ImageQuality.t :=
  [ImageQuality.low; ImageQuality.medium; ImageQuality.high;
   ImageQuality.original].

Definition ResultSort_members : list ResultSort.t :=
  [ResultSort.date_descending; ResultSort.date_ascending;
   ResultSort.like_descending; ResultSort.views_descending].

Definition EndpointsType_of_value (v : string) : option EndpointsType.t :=
  List.find (fun m => String.eqb (EndpointsType.value m) v)
            EndpointsType_members.

Definition ImageQuality_of_value (v : string) : option ImageQuality.t :=
  List.find (fun m => String.eqb (ImageQuality.value m) v)
            ImageQuality_members.

Definition ResultSort_of_value (v : string) : option ResultSort.t :=
  List.find (fun m => String.eqb (ResultSort.value m) v)
            ResultSort_members.

(** * Properties *)

(** ** Bytes *)

Lemma lower_byte_idemp (b : byte) : lower_byte (lower_byte b) = lower_byte b.
Proof. by destruct b. Qed.

Lemma lower_idemp (s : bytes) : lower (lower s) = lower s.
Proof.
  unfold lower. rewrite map_map. apply map_ext, lower_byte_idemp.
Qed.

Lemma lower_app (s t : bytes) : lower (s ++ t) = lower s ++ lower t.
Proof. apply map_app. Qed.

Lemma lower_byte_slash (b : byte) :
  Byte.eqb (lower_byte b) x2f = Byte.eqb b x2f.
Proof. by destruct b. Qed.

(** Stripping the leading slashes and lower-casing commute: no letter
    becomes a slash and a slash stays one. *)
Lemma lstrip_slash_lower (s : bytes) :
  lstrip (encode "/") (lower s) = lower (lstrip (encode "/") s).
Proof.
  induction s as [|b s IH]; [done|].
  change (encode "/") with [x2f] in *. simpl.
  rewrite !orb_false_r, lower_byte_slash.
  by destruct (Byte.eqb b x2f).
Qed.

Lemma hex_of_byte_lower (b : byte) :
  forallb is_lower_hex (hex_of_byte b) = true.
Proof. by destruct b. Qed.

Lemma hexdigest_lower_hex (d : bytes) :
  forallb is_lower_hex (list_ascii_of_string (hexdigest d)) = true.
Proof.
  unfold hexdigest. rewrite list_ascii_of_string_of_list_ascii.
  induction d as [|b d IH]; [done|].
  change (concat (map hex_of_byte (b :: d)))
    with (hex_of_byte b ++ concat (map hex_of_byte d)).
  rewrite forallb_app, IH, andb_true_r.
  apply hex_of_byte_lower.
Qed.

Lemma hexdigest_length (d : bytes) :
  String.length (hexdigest d) = 2 * length d.
Proof.
  unfold hexdigest. induction d as [|b d IH]; [done|].
  simpl. rewrite IH. lia.
Qed.

(** ** The signer *)

Section SignerFacts.
Context {constants : BikaConstants} {hashlib : Hashlib}.

(** The signed material depends on the path only through its lower-cased
    form. *)
Lemma sign_lower_url (url : URL) (timestamp_bytes nonce method : bytes) :
  _sign (lower_url url) timestamp_bytes nonce method
  = _sign url timestamp_bytes nonce method.
Proof.
  unfold _sign, lower_url. simpl raw_path.
  rewrite lstrip_slash_lower. do 2 f_equal.
  rewrite !lower_app, lower_idemp. done.
Qed.

(** C1. [_sign] returns the lowercase-hex HMAC, keyed by the digest key
    and with [sha256] as its hash, of the lower-cased concatenation of the
    URL path without its leading slashes, the timestamp bytes, the nonce,
    the method and the API key; its characters are lowercase hexadecimal
    digits; equal inputs give equal digests; and a path in mixed case
    gives the digest of its lower-cased form. *)
Theorem sign_is_lowercase_hex_hmac (url : URL)
    (timestamp_bytes nonce method : bytes) :
  _sign url timestamp_bytes nonce method
  = hexdigest
      (hmac_new DIGEST_KEY
         (lower (lstrip (encode "/") (raw_path url) ++ timestamp_bytes
                 ++ nonce ++ method ++ API_KEY))
         sha256)
  ∧ forallb is_lower_hex
      (list_ascii_of_string (_sign url timestamp_bytes nonce method)) = true
  ∧ (∀ url' timestamp_bytes' nonce' method',
       url' = url → timestamp_bytes' = timestamp_bytes →
       nonce' = nonce → method' = method →
       _sign url' timestamp_bytes' nonce' method'
       = _sign url timestamp_bytes nonce method)
  ∧ _sign {| raw_path := lower (raw_path url) |} timestamp_bytes nonce method
    = _sign url timestamp_bytes nonce method.
Proof.
  split; [done|]. split; [apply hexdigest_lower_hex|]. split.
  - by intros ? ? ? ? -> -> -> ->.
  - apply sign_lower_url.
Qed.

End SignerFacts.

(** ** Sequential runs of [request] *)

Section RequestFacts.
Context {constants : BikaConstants} {hashlib : Hashlib} {base : BaseEndpoint}.
Context {W : Type} (c : Collab W).

#[local] Arguments _sign : simpl never.
#[local] Arguments hexdigest : simpl never.
#[local] Arguments encode : simpl never.
#[local] Arguments digest : simpl never.
#[local] Arguments _join : simpl never.

(** Every way a run of [request] can go: which token is found, whether
    [login], [_join], the transport call and the decoding succeed. *)
Ltac run_cases :=
  repeat first
    [ progress cbn
    | match goal with
      | |- context [bool_decide ?P] => destruct (bool_decide P) eqn:?
      | |- context [negb ?b] => is_var b; destruct b
      | |- context [net_login ?c ?w] =>
          destruct (net_login c w) as [[[]|?] ?] eqn:?
      | |- context [_join ?a ?b ?d] => destruct (_join a b d) as [?|?] eqn:?
      | |- context [client_get ?c ?u ?h ?w] =>
          destruct (client_get c u h w) as [[[[?|?]]|?] ?] eqn:?
      | |- context [client_post ?c ?u ?h ?b ?w] =>
          destruct (client_post c u h b w) as [[[[?|?]]|?] ?] eqn:?
      | |- context [match ?e with TransportError _ => _ | _ => _ end] =>
          is_var e; destruct e
      end ].

Ltac unfold_request :=
  unfold request, request_wrapped, disable_cache, with_cache,
    catch_network_error.

(** The transport calls of a run of [request] have the method its body
    decides. *)
Lemma request_transport_matches (endpoint : string)
    (params body : option Dict) (no_token : bool) (s : State W) :
  Forall (method_matches_body body)
         (labels_of (run c (request endpoint params body no_token) s)).
Proof.
  unfold_request.
  destruct body as [b|]; run_cases.
  all: repeat constructor.
Qed.


(** C3. The [Nonce] header of every transport call is the hexadecimal MD5
    digest of the bytes of its [Time] header; so two requests, however
    they are made, that captured the same timestamp carry the same
    nonce. *)
Theorem nonce_is_md5_of_time (endpoint : string) (params body : option Dict)
    (no_token : bool) (s : State W) :
  let r := run c (request endpoint params body no_token) s in
  Forall (fun l => ∀ h, sent_headers l = Some h →
                        Nonce h = encode (hexdigest (digest md5 (Time h))))
         (labels_of r)
  ∧ (∀ (c' : Collab W) endpoint' params' body' no_token' s' l l' h h',
       l ∈ labels_of r →
       l' ∈ labels_of (run c' (request endpoint' params' body' no_token') s') →
       sent_headers l = Some h → sent_headers l' = Some h' →
       Time h = Time h' → Nonce h = Nonce h').
Proof.
  assert (Hn : ∀ (c0 : Collab W) e p b n s0,
    Forall (fun l => ∀ h, sent_headers l = Some h →
                          Nonce h = encode (hexdigest (digest md5 (Time h))))
           (labels_of (run c0 (request e p b n) s0))).
  { intros c0 e p b n s0. unfold_request.
    destruct b; run_cases.
    all: repeat constructor; cbn; intros h' [= <-]; done. }
  intros r. split; [apply Hn|].
  intros c' e' p' b' n' s' l l' h h' Hl Hl' Hh Hh' Ht.
  pose proof (Hn c endpoint params body no_token s) as Hr.
  pose proof (Hn c' e' p' b' n' s') as Hr'.
  rewrite Forall_forall in Hr, Hr'.
  rewrite (Hr l Hl h Hh), (Hr' l' Hl' h' Hh'). by rewrite Ht.
Qed.

(** C5. [request] first reads the stored token, and calls [login] exactly
    when that token is [None] and [no_token] is false; and the
    [Authorization] header it sends is the token stored when the headers
    are built (after that login, if there was one), or the empty text
    when there is none. *)
Theorem login_iff_token_unset (endpoint : string) (params body : option Dict)
    (no_token : bool) (s : State W) :
  let r := run c (request endpoint params body no_token) s in
  let need := bool_decide (net_token c (world s) = None) && negb no_token in
  let w1 := if need then (net_login c (world s)).2 else world s in
  token_read <$> head (trace_of r) = Some (Some (net_token c (world s)))
  ∧ count_labels is_login (labels_of r) = (if need then 1 else 0)
  ∧ (LLogin ∈ labels_of r ↔ net_token c (world s) = None ∧ no_token = false)
  ∧ Forall (fun l => ∀ h, sent_headers l = Some h →
                          Authorization h
                          = match net_token c w1 with
                            | Some t => t
                            | None => ""
                            end)
           (labels_of r).
Proof.
  unfold_request.
  destruct body; run_cases.
  all: repeat match goal with
       | H : bool_decide _ = true |- _ => apply bool_decide_eq_true in H
       | H : bool_decide _ = false |- _ => apply bool_decide_eq_false in H
       end.
  all: split; [done|]; split; [done|]; split;
    [ split; [intros Hin | intros [? ?]]; try done;
      try (split; done);
      try (by repeat (apply elem_of_cons in Hin as [?|Hin]; [done|]);
              apply elem_of_nil in Hin);
      try (by repeat constructor)
    | repeat constructor; cbn; try done;
      intros h' [= <-]; cbn; by destruct (net_token _ _) ].
Qed.

(** C7. [request] is never served from the cache. Whatever the cache
    holds, a run of [request] does not touch it and does not depend on it;
    it always starts with the token check; and when it returns it has gone
    through the whole pipeline: token check, the login if one was needed,
    the token read for the headers, the timestamp, the ambient headers,
    the URL resolved by [_join], and one transport call signed for that
    URL, timestamp and nonce. *)
Theorem request_is_never_cached (endpoint : string)
    (params body : option Dict) (no_token : bool) (s : State W) :
  let r := run c (request endpoint params body no_token) s in
  count_labels is_cache_access (labels_of r) = 0
  ∧ cache (state_of r) = cache s
  ∧ (∀ m, let r' := run c (request endpoint params body no_token)
                      (set_cache m s) in
          outcome_of r' = outcome_of r ∧ trace_of r' = trace_of r
          ∧ world (state_of r') = world (state_of r))
  ∧ (∃ rest, labels_of r = LGetToken :: rest)
  ∧ (∀ v, outcome_of r = Ok v →
       ∃ pre url sent,
         labels_of r
         = LGetToken :: pre ++ [LGetToken; LTimeNow; LRequestHeaders; sent]
         ∧ (pre = [] ∨ pre = [LLogin])
         ∧ _join API_HOST endpoint (default [] params) = Ok url
         ∧ (∃ headers, sent = LClientGet url headers
                       ∨ ∃ b, sent = LClientPost url headers b)
         ∧ method_matches_body body sent).
Proof.
  unfold_request.
  destruct body; run_cases.
  all: split; [done|]; split; [done|]; split; [intros m; run_cases|].
  all: repeat match goal with
       | H : ?x = _ |- context [?x] => rewrite H; cbn
       end; try done.
  all: split; [by eexists|]; try done.
  all: intros v [= <-].
  all: match goal with
       | |- context [LGetToken :: LLogin :: _] => exists [LLogin]
       | _ => exists []
       end.
  all: do 2 eexists.
  all: split; [reflexivity|]; split; [eauto|]; split; [reflexivity|].
  all: split; [eexists; first [by left | by right; eexists] | by split].
Qed.

(** C8, as the code has it. The [Image-Quality] header of every transport
    call is the ambient [X-Image-Quality] value exactly as the caller
    supplied it, and [medium] when the caller supplied none; [request]
    does not compare it with the four members of [ImageQuality], so the
    header is one of them whenever the supplied value is. *)
Theorem image_quality_is_override_or_medium (endpoint : string)
    (params body : option Dict) (no_token : bool) (s : State W) :
  let r := run c (request endpoint params body no_token) s in
  let need := bool_decide (net_token c (world s) = None) && negb no_token in
  let w1 := if need then (net_login c (world s)).2 else world s in
  Forall (fun l => ∀ h, sent_headers l = Some h →
            Image_Quality h
            = match request_headers c w1 "X-Image-Quality" with
              | Some override => override
              | None => ImageQuality.value ImageQuality.medium
              end)
         (labels_of r).
Proof.
  unfold_request.
  destruct body; run_cases.
  all: repeat constructor; cbn; try done.
  all: intros h' [= <-]; cbn; by destruct (request_headers _ _ _).
Qed.

(** C9. Nothing raised inside [request] is lost, and a failure of the
    transport never leaves it as such: when an effect of the run raises
    [e], or the response cannot be decoded with [e], the run ends with
    [surfaced e], which is [NetworkError] for every transport failure and
    [e] itself otherwise, so a decoding error stays [DecodeError]; and
    when the decoding succeeds the run returns its value. *)
Theorem request_errors_surface (endpoint : string)
    (params body : option Dict) (no_token : bool) (s : State W) :
  let r := run c (request endpoint params body no_token) s in
  Forall (fun ob => ∀ e, raised ob = Some e → outcome_of r = Err (surfaced e))
         (trace_of r)
  ∧ Forall (fun ob => ∀ resp, response_of ob = Some resp →
              outcome_of r = match json resp with
                             | Ok v => Ok v
                             | Err e => Err (surfaced e)
                             end)
           (trace_of r)
  ∧ (∀ e, _join API_HOST endpoint (default [] params) = Err e →
          ∃ e', outcome_of r = Err e')
  ∧ (∀ f, outcome_of r ≠ Err (TransportError f))
  ∧ (∀ f, surfaced (TransportError f) = NetworkError)
  ∧ surfaced DecodeError = DecodeError
  ∧ DecodeError ≠ NetworkError.
Proof.
  unfold_request.
  destruct body; run_cases.
  all: repeat match goal with
       | |- context [match ?e with TransportError _ => _ | _ => _ end] =>
           destruct e; cbn
       end.
  all: repeat split; try done.
  all: try (by repeat constructor; cbn; try done; intros ? [= <-]).
  all: try (by intros ? [=]).
  all: try (by eexists).
Qed.

(** A call of [request] that is not stopped before it (by a login that
    raises or a template that [_join] rejects) issues its transport call:
    one call, a POST exactly when there is a body. *)
Lemma request_reaches_transport (endpoint : string)
    (params body : option Dict) (s : State W) :
  (net_token c (world s) = None → (net_login c (world s)).1 = Ok tt) →
  (∃ url, _join API_HOST endpoint (default [] params) = Ok url) →
  let ls := labels_of (run c (request endpoint params body false) s) in
  count_labels is_transport ls = 1
  ∧ count_labels is_post ls = match body with Some _ => 1 | None => 0 end.
Proof.
  intros Hlogin [url Hjoin]. unfold_request. rewrite Hjoin.
  destruct (net_token c (world s)) as [t|] eqn:Htok.
  - destruct body; cbn; rewrite Htok; run_cases; done.
  - specialize (Hlogin eq_refl).
    destruct (net_login c (world s)) as [[[]|e] w] eqn:Hl; [|done].
    destruct body; cbn; rewrite Htok; cbn; rewrite Hl; run_cases; done.
Qed.

(** A call of [request] that returns has issued its transport call. *)
Lemma request_returns_after_transport (endpoint : string)
    (params body : option Dict) (no_token : bool) (s : State W) (v : JSON) :
  let r := run c (request endpoint params body no_token) s in
  outcome_of r = Ok v →
  count_labels is_transport (labels_of r) = 1
  ∧ count_labels is_post (labels_of r)
    = match body with Some _ => 1 | None => 0 end.
Proof.
  unfold_request.
  destruct body; run_cases; done.
Qed.

End RequestFacts.

(** ** The cache decorator *)

Section CacheFacts.
Context {constants : BikaConstants} {hashlib : Hashlib} {base : BaseEndpoint}.
Context {W : Type} (c : Collab W).

Lemma run_bind {A B : Type} (p : Prog A) (f : A → Prog B) (s : State W) :
  run c (p ≫= f) s
  = match run c p s with
    | (Ok a, s1, tr) =>
        let '(r, s2, tr') := run c (f a) s1 in (r, s2, tr ++ tr')
    | (Err e, s1, tr) => (Err e, s1, tr)
    end.
Proof.
  revert s. induction p as [a|e|X ev k IH]; intros s; cbn.
  - by destruct (run c (f a) s) as [[r s2] tr'].
  - done.
  - destruct (handle c ev s) as [o s1].
    change (bind (k o) f) with (k o ≫= f). rewrite IH.
    destruct (run c (k o) s1) as [[[a|e] s2] tr]; [|done].
    by destruct (run c (f a) s2) as [[r s3] tr'].
Qed.

Lemma set_cache_same (s : State W) : set_cache (cache s) s = s.
Proof. by destruct s. Qed.

(** A fresh entry is returned as it is: the lookup is the only effect. *)
Lemma run_cache_hit (T : Z) (key : CacheKey) (op : Prog JSON) (s : State W)
    (v : JSON) (expiry : Z) :
  cache s !! key = Some (v, expiry) →
  (cache_now c (world s) < expiry)%Z →
  run c (cache_config T key op) s = served key v s.
Proof.
  intros Hk Hnow. unfold cache_config, with_cache, served. cbn.
  unfold cache_lookup. rewrite Hk, bool_decide_eq_true_2 by done. done.
Qed.

(** Without an entry, or with one that has expired (which the lookup
    evicts), [op] runs, and what it returns is stored with the expiry
    now + T. *)
Lemma run_cache_miss (T : Z) (key : CacheKey) (op : Prog JSON) (s : State W) :
  absent_or_expired c key s →
  run c (cache_config T key op) s
  = refreshed c key T (run c op (evicted key s)).
Proof.
  intros Hmiss. unfold cache_config, with_cache, refreshed, evicted. cbn.
  unfold cache_lookup.
  assert (Hs : (let '(hit, s') :=
                  match cache s !! key with
                  | Some (v, expiry) =>
                      if bool_decide (cache_now c (world s) < expiry)%Z
                      then (Some v, s)
                      else (None, set_cache (delete key (cache s)) s)
                  | None => (None, s)
                  end in (Ok hit, s'))
               = (Ok None, set_cache (delete key (cache s)) s)).
  { destruct Hmiss as [Hk|(v & expiry & Hk & Hexp)]; rewrite Hk.
    - by rewrite delete_id, set_cache_same.
    - by rewrite bool_decide_eq_false_2 by lia. }
  rewrite Hs. cbn.
  change (bind op ?f) with (op ≫= f). rewrite run_bind.
  by destruct (run c op _) as [[[v'|e] s1] tr].
Qed.

Lemma refreshed_entry (key : CacheKey) (T : Z)
    (r0 : Outcome JSON * State W * list Obs) (v : JSON) :
  outcome_of (refreshed c key T r0) = Ok v →
  let s1 := state_of (refreshed c key T r0) in
  cache s1 !! key = Some (v, (cache_now c (world s1) + T)%Z).
Proof.
  unfold refreshed. destruct r0 as [[[v'|e] s0] tr]; cbn; [|done].
  intros [= ->]. apply lookup_insert_eq.
Qed.

(** C6. An operation declared with a TTL T (one day for [collections],
    three days for [categories], [keywords], [comic_detail] and
    [game_detail]) is its underlying [request] behind a cache entry keyed
    by the call: an entry that has not expired is returned with no effect
    but the lookup; with no entry, or an expired one, [request] runs and
    the value it returns is stored with expiry now + T; so after such a
    run a second call at any time before now + T returns that value
    without running [request], and a call after it runs [request] again
    and stores afresh. An operation declared without a TTL is its
    [request], which runs at every call. *)
Theorem cached_operations (call : Call) :
  match declared_ttl (endpoint_of call) with
  | Some T =>
      ∃ endpoint params,
        let key := cache_key call in
        let op := request endpoint params None false in
        ∀ s : State W,
          (∀ v expiry,
             cache s !! key = Some (v, expiry) →
             (cache_now c (world s) < expiry)%Z →
             run c (invoke call) s = served key v s)
          ∧ (absent_or_expired c key s →
             run c (invoke call) s
             = refreshed c key T (run c op (evicted key s)))
          ∧ (∀ v w2,
               absent_or_expired c key s →
               outcome_of (run c (invoke call) s) = Ok v →
               let s1 := state_of (run c (invoke call) s) in
               cache s1 !! key = Some (v, (cache_now c (world s1) + T)%Z)
               ∧ ((cache_now c w2 < cache_now c (world s1) + T)%Z →
                  run c (invoke call) (set_world w2 s1)
                  = served key v (set_world w2 s1))
               ∧ ((cache_now c (world s1) + T < cache_now c w2)%Z →
                  run c (invoke call) (set_world w2 s1)
                  = refreshed c key T
                      (run c op (evicted key (set_world w2 s1)))))
  | None =>
      ∃ endpoint params body, invoke call = request endpoint params body false
  end.
Proof.
  assert (Hgen : ∀ T key op (p : Prog JSON),
    p = cache_config T key op →
    ∀ s : State W,
      (∀ v expiry,
         cache s !! key = Some (v, expiry) →
         (cache_now c (world s) < expiry)%Z →
         run c p s = served key v s)
      ∧ (absent_or_expired c key s →
         run c p s = refreshed c key T (run c op (evicted key s)))
      ∧ (∀ v w2,
           absent_or_expired c key s →
           outcome_of (run c p s) = Ok v →
           let s1 := state_of (run c p s) in
           cache s1 !! key = Some (v, (cache_now c (world s1) + T)%Z)
           ∧ ((cache_now c w2 < cache_now c (world s1) + T)%Z →
              run c p (set_world w2 s1) = served key v (set_world w2 s1))
           ∧ ((cache_now c (world s1) + T < cache_now c w2)%Z →
              run c p (set_world w2 s1)
              = refreshed c key T (run c op (evicted key (set_world w2 s1)))))).
  { intros T key op p -> s. split; [|split].
    - intros v expiry. apply run_cache_hit.
    - apply run_cache_miss.
    - intros v w2 Hmiss. rewrite (run_cache_miss _ _ _ _ Hmiss).
      intros Hv s1. pose proof (refreshed_entry _ _ _ _ Hv) as Hentry.
      fold s1 in Hentry. split; [done|]. split; intros Hw2.
      + by eapply run_cache_hit.
      + apply run_cache_miss. right. by eexists _, _. }
  destruct call; cbn [declared_ttl endpoint_of invoke].
  all: try (by do 3 eexists).
  all: do 2 eexists; cbn zeta; by apply Hgen.
Qed.

End CacheFacts.

(** ** The exposed operations *)

Lemma count_labels_app (f : Label → bool) (l1 l2 : list Label) :
  count_labels f (l1 ++ l2) = count_labels f l1 + count_labels f l2.
Proof. unfold count_labels. by rewrite List.filter_app, length_app. Qed.

Section OperationFacts.
Context {constants : BikaConstants} {hashlib : Hashlib} {base : BaseEndpoint}.
Context {W : Type} (c : Collab W).

(** The effects of a decorated operation are those of the operation and
    accesses to the cache. *)
Lemma with_cache_labels (P : Label → Prop) (policy : CachePolicy)
    (op : Prog JSON) (s : State W) :
  (∀ l, is_cache_access l = true → P l) →
  (∀ s', Forall P (labels_of (run c op s'))) →
  Forall P (labels_of (run c (with_cache policy op) s)).
Proof.
  intros Hcache Hop. destruct policy as [T key|]; [|apply Hop].
  unfold with_cache. cbn. unfold cache_lookup.
  destruct (cache s !! key) as [[v expiry]|];
    [destruct (bool_decide _)|]; cbn.
  1: by repeat constructor; apply Hcache.
  all: change (bind op ?f) with (op ≫= f); rewrite run_bind.
  all: match goal with |- context [run c ?p ?s0] =>
         specialize (Hop s0); destruct (run c p s0) as [[[v'|e] s1] tr]
       end; cbn in *.
  all: unfold labels_of in *; cbn in *.
  all: cbn; rewrite ?map_app; cbn.
  all: rewrite ?Forall_cons, ?Forall_app, ?Forall_cons, ?Forall_nil.
  all: repeat split; try done; by apply Hcache.
Qed.

(** The effects of a refreshed entry are those of the run in between,
    as far as anything but the cache goes. *)
Lemma refreshed_counts (f : Label → bool) (key : CacheKey) (T : Z)
    (r0 : Outcome JSON * State W * list Obs) :
  (∀ l, is_cache_access l = true → f l = false) →
  count_labels f (labels_of (refreshed c key T r0))
  = count_labels f (labels_of r0).
Proof.
  intros Hf. unfold refreshed, labels_of, count_labels.
  destruct r0 as [[[v|e] s0] tr]; cbn.
  all: rewrite (Hf (LCacheLookup key) eq_refl).
  2: done.
  rewrite map_app, List.filter_app, length_app. cbn.
  rewrite (Hf (LCacheStore key v T) eq_refl). cbn.
  unfold obs_label. lia.
Qed.

Lemma refreshed_outcome (key : CacheKey) (T : Z)
    (r0 : Outcome JSON * State W * list Obs) :
  outcome_of (refreshed c key T r0) = outcome_of r0.
Proof. unfold refreshed. by destruct r0 as [[[v|e] s0] tr]. Qed.

(** C10. Of the exposed operations [advanced_search] alone passes a body
    to [request]: each operation is one call of [request], behind the
    cache or not, whose body is given exactly for [advanced_search].
    Whenever an operation gets as far as that call (it is not served from
    the cache) and is not stopped before the transport (by a login that
    raises or a template that [_join] rejects), it issues exactly one
    transport call, a POST for [advanced_search] and a GET for every
    other operation; in particular an operation that returns, not from
    the cache, has issued it. And in any run whatever, every transport
    call of [advanced_search] is a POST and every transport call of any
    other operation is a GET. *)
Theorem only_advanced_search_posts (call : Call) :
  (∃ policy endpoint params body,
     invoke call = with_cache policy (request endpoint params body false)
     ∧ (is_Some body
        ↔ endpoint_of call = EndpointsType.advanced_search)
     ∧ ∀ s : State W,
         declared_ttl (endpoint_of call) = None
         ∨ absent_or_expired c (cache_key call) s →
         (net_token c (world s) = None →
          (net_login c (world s)).1 = Ok tt) →
         (∃ url, _join API_HOST endpoint (default [] params) = Ok url) →
         let ls := labels_of (run c (invoke call) s) in
         count_labels is_transport ls = 1
         ∧ count_labels is_post ls
           = match body with Some _ => 1 | None => 0 end)
  ∧ (∀ s : State W,
       Forall (posts_only_for_search (endpoint_of call))
              (labels_of (run c (invoke call) s)))
  ∧ (∀ (s : State W) (v : JSON),
       declared_ttl (endpoint_of call) = None
       ∨ absent_or_expired c (cache_key call) s →
       outcome_of (run c (invoke call) s) = Ok v →
       let ls := labels_of (run c (invoke call) s) in
       count_labels is_transport ls = 1
       ∧ count_labels is_post ls
         = (if bool_decide
                 (endpoint_of call = EndpointsType.advanced_search)
            then 1 else 0)).
Proof.
  assert (Hreq : ∀ e endpoint params body,
    (is_Some body ↔ e = EndpointsType.advanced_search) →
    ∀ s : State W,
      Forall (posts_only_for_search e)
             (labels_of (run c (request endpoint params body false) s))).
  { intros e endpoint params body Hb s.
    eapply Forall_impl; [apply request_transport_matches|].
    intros l Hl. destruct l; cbn in *; try done; destruct Hl as [-> _].
    - intros He. apply Hb in He. by destruct He.
    - apply Hb. by eexists. }
  assert (Hgo : ∀ policy endpoint params body (s : State W),
    match policy with
    | Exempt => True
    | Cached _ key => absent_or_expired c key s
    end →
    (net_token c (world s) = None → (net_login c (world s)).1 = Ok tt) →
    (∃ url, _join API_HOST endpoint (default [] params) = Ok url) →
    let ls := labels_of
                (run c (with_cache policy
                          (request endpoint params body false)) s) in
    count_labels is_transport ls = 1
    ∧ count_labels is_post ls = match body with Some _ => 1 | None => 0 end).
  { intros policy endpoint params body s Hreach Hlogin Hjoin.
    destruct policy as [T key|]; cbn zeta.
    - change (with_cache (Cached T key) ?op) with (cache_config T key op).
      rewrite (run_cache_miss c T key _ s Hreach).
      rewrite !refreshed_counts by (by intros []).
      by apply (request_reaches_transport c endpoint params body
                  (evicted key s)).
    - by apply (request_reaches_transport c endpoint params body s). }
  assert (Hret : ∀ policy endpoint params body (s : State W) v,
    match policy with
    | Exempt => True
    | Cached _ key => absent_or_expired c key s
    end →
    let r := run c (with_cache policy
                      (request endpoint params body false)) s in
    outcome_of r = Ok v →
    count_labels is_transport (labels_of r) = 1
    ∧ count_labels is_post (labels_of r)
      = match body with Some _ => 1 | None => 0 end).
  { intros policy endpoint params body s v Hreach.
    destruct policy as [T key|]; cbn zeta.
    - change (with_cache (Cached T key) ?op) with (cache_config T key op).
      rewrite (run_cache_miss c T key _ s Hreach).
      rewrite refreshed_outcome, !refreshed_counts by (by intros []).
      apply request_returns_after_transport.
    - apply request_returns_after_transport. }
  split; [|split].
  - destruct call; cbn [invoke endpoint_of].
    all: first
      [ exists Exempt; do 3 eexists; split; [reflexivity|]
      | eexists (Cached _ _); do 3 eexists; split; [reflexivity|] ].
    all: split; [|intros s Hreach; apply Hgo; by destruct Hreach].
    all: split;
      [ intros [? Hb]; first [discriminate Hb | reflexivity]
      | intros He; first [discriminate He | by eexists] ].
  - intros s. destruct call; cbn [invoke endpoint_of].
    all: unfold collections, categories, keywords, advanced_search,
           category_list, author_list, comic_detail, comic_recommendation,
           comic_episodes, comic_page, comic_comments, games, game_detail.
    all: try (apply (with_cache_labels _ (Cached _ _)); [by intros []|]).
    all: try intros ?; apply Hreq.
    all: split;
      [ intros [? Hb]; first [discriminate Hb | reflexivity]
      | intros He; first [discriminate He | by eexists] ].
  - intros s v Hreach.
    destruct call; cbn [invoke endpoint_of declared_ttl] in *.
    all: unfold collections, categories, keywords, advanced_search,
           category_list, author_list, comic_detail, comic_recommendation,
           comic_episodes, comic_page, comic_comments, games, game_detail.
    all: first
      [ apply (Hret Exempt); exact I
      | apply (Hret (Cached _ _)); by destruct Hreach ].
Qed.

End OperationFacts.

(** ** Concurrent calls of [request] *)

Section EventLoopFacts.
Context {constants : BikaConstants} {hashlib : Hashlib} {base : BaseEndpoint}.
Context {W : Type} (c : Collab W).

#[local] Arguments _sign : simpl never.
#[local] Arguments hexdigest : simpl never.
#[local] Arguments encode : simpl never.
#[local] Arguments digest : simpl never.
#[local] Arguments _join : simpl never.

(** The first turn of a call that finds no token: it reads the token,
    issues its login and is suspended on it, leaving the state as it
    was. *)
Lemma first_turn_unset (a : RequestArgs) (s : State W) :
  net_token c (world s) = None →
  ∃ t, resume c (request_task a) s = (t, s, [LGetToken; LLogin])
       ∧ awaits_login t = true
       ∧ follows_own_login c a t.
Proof.
  intros Htok. destruct a as [[endpoint params] body].
  unfold request_task, request, request_wrapped, disable_cache, with_cache,
    catch_network_error.
  cbn. rewrite Htok. cbn.
  eexists. split; [reflexivity|]. split; [done|].
  intros s'. cbn.
  destruct (net_login c (world s')) as [[[]|e] w]; cbn.
  - destruct (_join _ _ _) as [url|e]; cbn.
    + destruct body as [b|]; cbn.
      all: split; [done|]; split; [done|].
      all: do 2 eexists; split; [reflexivity|]; split; [reflexivity|].
      all: split; [by destruct (net_token c w)|by split].
    + by destruct e.
  - by destruct e.
Qed.

(** The turns of freshly created calls, one after the other, on a loop
    whose token is unset: each issues a login of its own. *)
Lemma schedule_spawned (s : State W) (calls : list RequestArgs)
    (before : list (Task JSON)) (log : list Label) :
  net_token c (world s) = None →
  ∃ ts,
    schedule c {| tasks := before ++ map request_task calls;
                  shared := s; issued := log |}
             (seq (length before) (length calls))
    = {| tasks := before ++ ts; shared := s;
         issued := log ++ concat (map (fun _ => [LGetToken; LLogin]) calls) |}
    ∧ Forall2 (fun a t => awaits_login t = true ∧ follows_own_login c a t)
              calls ts.
Proof.
  intros Htok. revert before log.
  induction calls as [|a calls IH]; intros before log.
  - exists []. cbn. by rewrite !app_nil_r.
  - destruct (first_turn_unset a s Htok) as (t & Hturn & Hlogin & Hown).
    cbn [length seq map schedule foldl]. unfold turn at 2.
    cbn [tasks shared issued].
    rewrite lookup_app_r, Nat.sub_diag by done. cbn [lookup list_lookup].
    rewrite Hturn.
    replace (<[length before := t]>
               (before ++ request_task a :: map request_task calls))
      with ((before ++ [t]) ++ map request_task calls).
    2: { rewrite <- (Nat.add_0_r (length before)), insert_app_r.
         by rewrite <- app_assoc. }
    specialize (IH (before ++ [t]) (log ++ [LGetToken; LLogin])).
    rewrite length_app in IH. cbn [length] in IH.
    rewrite Nat.add_1_r in IH.
    destruct IH as (ts & Hsched & Hts).
    exists (t :: ts). split.
    + unfold schedule in Hsched. rewrite Hsched.
      by rewrite <- !app_assoc.
    + by constructor.
Qed.

Lemma count_logins_turns (calls : list RequestArgs) :
  count_labels is_login (concat (map (fun _ => [LGetToken; LLogin]) calls))
  = length calls.
Proof.
  unfold count_labels. induction calls as [|a calls IH]; [done|].
  cbn. by rewrite IH.
Qed.

(** C4, as the code has it. [request] has no guard around its login: when
    N calls run their first turn while the token is unset, each of them
    finds it unset and issues a login of its own, N in all; and each
    caller then goes by the outcome of its own login, ending with its
    exception if it raises and going on with the token then stored if it
    returns. *)
Theorem concurrent_requests_each_login (calls : list RequestArgs)
    (s : State W) :
  net_token c (world s) = None →
  let pl := schedule c (spawn calls s) (seq 0 (length calls)) in
  count_labels is_login (issued pl) = length calls
  ∧ shared pl = s
  ∧ Forall2 (fun a t => awaits_login t = true ∧ follows_own_login c a t)
            calls (tasks pl).
Proof.
  intros Htok pl.
  destruct (schedule_spawned s calls [] [] Htok) as (ts & Hsched & Hts).
  subst pl. unfold spawn.
  change (map request_task calls) with ([] ++ map request_task calls).
  change 0 with (length (@nil (Task JSON))).
  rewrite Hsched. cbn [issued shared tasks app].
  by rewrite count_logins_turns.
Qed.

End EventLoopFacts.

(** * Worked examples

    The statements above at the concrete setting, and the inputs at which
    two claims of the specification fail as they are written. *)

(** C1 at work: the same inputs are signed alike, and [/Comics/ABC] is
    signed as [/comics/abc]. *)
Lemma sign_is_lowercase_hex_hmac_witness :
  let _sign := @_sign demo_constants demo_hashlib in
  _sign {| raw_path := encode "/Comics/ABC" |}
        (encode "17") (encode "5d") (encode "GET")
  = _sign {| raw_path := encode "/Comics/ABC" |}
          (encode "17") (encode "5d") (encode "GET")
  ∧ _sign {| raw_path := encode "/comics/abc" |}
          (encode "17") (encode "5d") (encode "GET")
    = _sign {| raw_path := encode "/Comics/ABC" |}
            (encode "17") (encode "5d") (encode "GET").
Proof.
  pose proof (@sign_is_lowercase_hex_hmac demo_constants demo_hashlib
                {| raw_path := encode "/Comics/ABC" |}
                (encode "17") (encode "5d") (encode "GET"))
    as (_ & _ & Hsame & Hlower).
  split.
  - apply Hsame; reflexivity.
  - exact Hlower.
Defined.


(** C3 at work: a GET and a POST made at the same second carry the same
    nonce. *)
Lemma nonce_is_md5_of_time_witness :
  ∃ url h url' h' b,
    labels_of (run demo_collab
                 (@request demo_constants demo_hashlib demo_endpoint
                    "collections" None None false)
                 (demo_state demo_world)) !! 5
    = Some (LClientGet url h)
    ∧ labels_of (run demo_collab
                   (@request demo_constants demo_hashlib demo_endpoint
                      "comics/advanced-search" None
                      (Some [("keyword", VStr "k")]) true)
                   (demo_state demo_world)) !! 4
      = Some (LClientPost url' h' b)
    ∧ Nonce h = encode (hexdigest (digest (@md5 demo_hashlib) (Time h)))
    ∧ Nonce h = Nonce h'.
Proof.
  pose proof (@nonce_is_md5_of_time demo_constants demo_hashlib
                demo_endpoint _ demo_collab
                "collections" None None false (demo_state demo_world))
    as (Hnonce & Hsame).
  do 5 eexists. split; [reflexivity|]. split; [reflexivity|]. split.
  - eapply (Forall_lookup_1 _ _ 5 _ Hnonce); reflexivity.
  - eapply (Hsame demo_collab "comics/advanced-search" None
              (Some [("keyword", VStr "k")]) true (demo_state demo_world)).
    + eapply (list_elem_of_lookup_2 _ 5). reflexivity.
    + eapply (list_elem_of_lookup_2 _ 4). reflexivity.
    + reflexivity.
    + reflexivity.
    + reflexivity.
Defined.

(** C5 at work: with no token stored and [no_token] false the login is
    called, and the header carries the token it stored. *)
Lemma login_iff_token_unset_witness :
  let r := run demo_collab
             (@request demo_constants demo_hashlib demo_endpoint
                "collections" None None false)
             (demo_state demo_world) in
  LLogin ∈ labels_of r
  ∧ ∃ url h, labels_of r !! 5 = Some (LClientGet url h)
             ∧ Authorization h = "tok".
Proof.
  pose proof (@login_iff_token_unset demo_constants demo_hashlib
                demo_endpoint _ demo_collab
                "collections" None None false (demo_state demo_world))
    as (_ & _ & Hlogin & Hauth).
  split.
  - apply Hlogin. split; reflexivity.
  - do 2 eexists. split; [reflexivity|].
    eapply (Forall_lookup_1 _ _ 5 _ Hauth); reflexivity.
Defined.

(** C6 at work, on [collections] and its TTL of one day: an entry that
    has not expired is served; with an empty cache the request runs and
    its value is stored for 86400 seconds; an hour later that value is
    served, and past the day the request runs again. *)
Lemma cached_operations_witness :
  let key := cache_key Collections in
  let invoke := @invoke demo_constants demo_hashlib demo_endpoint in
  let kept := {| world := demo_world;
                 cache := {[ key := (JStr "kept", 1700000060%Z) ]} |} in
  let s1 := state_of (run demo_collab (invoke Collections)
                        (demo_state demo_world)) in
  let v := JDict [("code", JInt 200)] in
  let later := set_world (demo_at 1700003600 (world s1)) s1 in
  let next_day := set_world (demo_at 1700086401 (world s1)) s1 in
  run demo_collab (invoke Collections) kept = served key (JStr "kept") kept
  ∧ cache s1 !! key = Some (v, 1700086400%Z)
  ∧ run demo_collab (invoke Collections) later = served key v later
  ∧ ∃ endpoint params,
      run demo_collab (invoke Collections) next_day
      = refreshed demo_collab key 86400
          (run demo_collab
             (@request demo_constants demo_hashlib demo_endpoint
                endpoint params None false)
             (evicted key next_day)).
Proof.
  intros key invoke kept s1 v later next_day.
  destruct (@cached_operations demo_constants demo_hashlib demo_endpoint
              _ demo_collab Collections)
    as (endpoint & params & Hcached).
  cbn zeta in Hcached.
  destruct (Hcached kept) as (Hhit & _ & _).
  destruct (Hcached (demo_state demo_world)) as (_ & _ & Hsecond).
  destruct (Hsecond v (demo_at 1700003600 (world s1)))
    as (Hentry & Hwithin & _).
  { left. reflexivity. }
  { reflexivity. }
  destruct (Hsecond v (demo_at 1700086401 (world s1)))
    as (_ & _ & Hafter).
  { left. reflexivity. }
  { reflexivity. }
  split; [|split; [|split]].
  - apply (Hhit (JStr "kept") 1700000060%Z); reflexivity.
  - exact Hentry.
  - apply Hwithin. reflexivity.
  - exists endpoint, params. apply Hafter. reflexivity.
Defined.

(** C7 at work: with an entry for [collections] in the cache, [request]
    still goes out, and leaves the entry alone. *)
Lemma request_is_never_cached_witness :
  let s := {| world := demo_with_token "tok" demo_world;
              cache := {[ cache_key Collections := (JNull, 9999999999%Z) ]} |} in
  let r := run demo_collab
             (@request demo_constants demo_hashlib demo_endpoint
                "collections" None None false) s in
  ∃ pre url sent,
    labels_of r
    = LGetToken :: pre ++ [LGetToken; LTimeNow; LRequestHeaders; sent]
    ∧ (pre = [] ∨ pre = [LLogin])
    ∧ @_join demo_endpoint (@API_HOST demo_constants) "collections" []
      = Ok url
    ∧ (∃ headers, sent = LClientGet url headers
                  ∨ ∃ b, sent = LClientPost url headers b)
    ∧ @method_matches_body demo_constants demo_hashlib None sent.
Proof.
  intros s r.
  pose proof (@request_is_never_cached demo_constants demo_hashlib
                demo_endpoint _ demo_collab
                "collections" None None false s)
    as (_ & _ & _ & _ & Hpipeline).
  eapply Hpipeline. reflexivity.
Defined.

(** C8 at work: a caller asking for [high] gets [high]. *)
Lemma image_quality_is_override_or_medium_witness :
  ∃ url h,
    labels_of (run demo_collab
                 (@request demo_constants demo_hashlib demo_endpoint
                    "collections" None None false)
                 (demo_state (demo_with_quality "high" demo_world))) !! 5
    = Some (LClientGet url h)
    ∧ Image_Quality h = ImageQuality.value ImageQuality.high.
Proof.
  pose proof (@image_quality_is_override_or_medium demo_constants
                demo_hashlib demo_endpoint _ demo_collab
                "collections" None None false
                (demo_state (demo_with_quality "high" demo_world)))
    as Hquality.
  do 2 eexists. split; [reflexivity|].
  eapply (Forall_lookup_1 _ _ 5 _ Hquality); reflexivity.
Defined.

(** C8 as written fails: with [X-Image-Quality: ultra] among the ambient
    headers the request goes out with [Image-Quality: ultra], which is
    none of [low], [medium], [high] and [original]. *)
Lemma image_quality_not_checked :
  ∃ url h,
    labels_of (run demo_collab
                 (@request demo_constants demo_hashlib demo_endpoint
                    "collections" None None false)
                 (demo_state (demo_with_quality "ultra" demo_world))) !! 5
    = Some (LClientGet url h)
    ∧ Image_Quality h = "ultra"
    ∧ ∀ q : ImageQuality.t, Image_Quality h ≠ ImageQuality.value q.
Proof.
  do 2 eexists. split; [reflexivity|]. split; [reflexivity|].
  by intros [].
Qed.

(** C9 at work: a timeout of the transport ends the call with the network
    error, a body that is not JSON with the decoding error, and a
    template that [_join] rejects with an error too. *)
Lemma request_errors_surface_witness :
  outcome_of (run demo_collab
                (@request demo_constants demo_hashlib demo_endpoint
                   "collections" None None false)
                (demo_state
                   (demo_with_reply (Err (TransportError Timeout)) demo_world)))
  = Err NetworkError
  ∧ outcome_of (run demo_collab
                  (@request demo_constants demo_hashlib demo_endpoint
                     "collections" None None false)
                  (demo_state
                     (demo_with_reply (Ok {| json := Err DecodeError |})
                        demo_world)))
    = Err DecodeError
  ∧ ∃ e, outcome_of (run demo_collab
                       (@request demo_constants demo_hashlib
                          demo_failing_endpoint
                          "comics/{id}" None None false)
                       (demo_state demo_world))
         = Err e.
Proof.
  split; [|split].
  - pose proof (@request_errors_surface demo_constants demo_hashlib
                  demo_endpoint _ demo_collab
                  "collections" None None false
                  (demo_state
                     (demo_with_reply (Err (TransportError Timeout))
                        demo_world)))
      as (Hraised & _).
    exact (Forall_lookup_1 _ _ 5 _ Hraised eq_refl
             (TransportError Timeout) eq_refl).
  - pose proof (@request_errors_surface demo_constants demo_hashlib
                  demo_endpoint _ demo_collab
                  "collections" None None false
                  (demo_state
                     (demo_with_reply (Ok {| json := Err DecodeError |})
                        demo_world)))
      as (_ & Hdecoded & _).
    exact (Forall_lookup_1 _ _ 5 _ Hdecoded eq_refl
             {| json := Err DecodeError |} eq_refl).
  - pose proof (@request_errors_surface demo_constants demo_hashlib
                  demo_failing_endpoint _ demo_collab
                  "comics/{id}" None None false (demo_state demo_world))
      as (_ & _ & Hjoin & _).
    eapply Hjoin. reflexivity.
Defined.

(** C10 at work: [advanced_search] issues one transport call, a POST;
    [collections], with a token stored and nothing cached, issues one
    too, a GET. *)
Lemma only_advanced_search_posts_witness :
  let search :=
    labels_of (run demo_collab
                 (@invoke demo_constants demo_hashlib demo_endpoint
                    (AdvancedSearch "k" 1 ResultSort.date_descending))
                 (demo_state demo_world)) in
  let listing :=
    labels_of (run demo_collab
                 (@invoke demo_constants demo_hashlib demo_endpoint
                    Collections)
                 (demo_state (demo_with_token "tok" demo_world))) in
  Forall (posts_only_for_search EndpointsType.advanced_search) search
  ∧ (count_labels is_transport search = 1
     ∧ count_labels is_post search = 1)
  ∧ (count_labels is_transport listing = 1
     ∧ count_labels is_post listing = 0).
Proof.
  intros search listing. split; [|split].
  - exact (proj1 (proj2 (@only_advanced_search_posts demo_constants
                           demo_hashlib demo_endpoint _ demo_collab
                           (AdvancedSearch "k" 1
                              ResultSort.date_descending)))
                 (demo_state demo_world)).
  - refine (proj2 (proj2 (@only_advanced_search_posts demo_constants
                            demo_hashlib demo_endpoint _ demo_collab
                            (AdvancedSearch "k" 1
                               ResultSort.date_descending)))
                  (demo_state demo_world) (JDict [("code", JInt 200)])
                  _ _).
    + left. reflexivity.
    + reflexivity.
  - destruct (proj1 (@only_advanced_search_posts demo_constants
                       demo_hashlib demo_endpoint _ demo_collab
                       Collections))
      as (policy & endpoint & params & body & _ & Hbody & Hgo).
    destruct body as [b|].
    + destruct Hbody as [Hbody _].
      discriminate (Hbody (ex_intro _ b eq_refl)).
    + apply (Hgo (demo_state (demo_with_token "tok" demo_world))).
      * right. left. reflexivity.
      * discriminate.
      * eexists. reflexivity.
Defined.

(** C4 at work: two calls started while no token is stored issue two
    logins. *)
Lemma concurrent_requests_each_login_witness :
  count_labels is_login
    (issued (schedule demo_collab
               (@spawn demo_constants demo_hashlib demo_endpoint _
                  [("collections", None, None); ("categories", None, None)]
                  (demo_state demo_world))
               (seq 0 2)))
  = 2.
Proof.
  pose proof (@concurrent_requests_each_login demo_constants demo_hashlib
                demo_endpoint _ demo_collab
                [("collections", None, None); ("categories", None, None)]
                (demo_state demo_world) eq_refl)
    as (Hcount & _).
  exact Hcount.
Defined.

(** C4 as written fails: two calls that both find the token unset issue
    two logins, not one, and do not share an outcome: here the first
    login is refused and its caller ends with that error, while the
    second succeeds and its caller goes on to its transport call. *)
Lemma two_requests_two_logins :
  let pl := schedule demo_collab
              (@spawn demo_constants demo_hashlib demo_endpoint _
                 [("collections", None, None); ("categories", None, None)]
                 (demo_state
                    (demo_with_logins [Err AuthError; Ok "tok"] demo_world)))
              [0; 1; 0; 1] in
  take 4 (issued pl) = [LGetToken; LLogin; LGetToken; LLogin]
  ∧ count_labels is_login (issued pl) = 2
  ∧ count_labels is_login (issued pl) ≠ 1
  ∧ tasks pl !! 0 = Some (Finished (Err AuthError))
  ∧ awaits_transport <$> tasks pl !! 1 = Some true.
Proof. by repeat split. Qed.

(** * Further properties of the signer *)

Lemma lstrip_slashes_prefix (n : nat) (p : bytes) :
  lstrip (encode "/") (replicate n x2f ++ p) = lstrip (encode "/") p.
Proof. induction n as [|n IH]; [done|]. exact IH. Qed.

Lemma lstrip_slash_head (p : bytes) :
  head (lstrip (encode "/") p) ≠ Some x2f.
Proof.
  induction p as [|b p IH]; [done|].
  change (encode "/") with [x2f] in *. simpl.
  rewrite orb_false_r. destruct (Byte.eqb b x2f) eqn:Hb; [done|].
  simpl. intros [= ->]. done.
Qed.

Lemma lstrip_slash_idemp (p : bytes) :
  lstrip (encode "/") (lstrip (encode "/") p) = lstrip (encode "/") p.
Proof.
  induction p as [|b p IH]; [done|].
  change (encode "/") with [x2f] in *. simpl.
  rewrite orb_false_r. destruct (Byte.eqb b x2f) eqn:Hb; [done|].
  simpl. by rewrite orb_false_r, Hb.
Qed.

(** A path that keeps a byte once its slashes are stripped can be
    extended without disturbing the stripping. *)
Lemma lstrip_slash_app (p x : bytes) :
  lstrip (encode "/") p ≠ [] →
  lstrip (encode "/") (p ++ x) = lstrip (encode "/") p ++ x.
Proof.
  induction p as [|b p IH]; [done|].
  change (encode "/") with [x2f] in *. simpl.
  rewrite orb_false_r. by destruct (Byte.eqb b x2f).
Qed.

Lemma unhexlify_hex_of_byte (b : byte) (rest : list ascii) :
  unhexlify (hex_of_byte b ++ rest) = (b ::.) <$> unhexlify rest.
Proof.
  assert (Hb : ∃ hi lo, hex_of_byte b = [hi; lo]
                        ∧ ∃ h l, hex_value hi = Some h ∧ hex_value lo = Some l
                                 ∧ Byte.of_N (16 * h + l) = Some b).
  { destruct b; do 2 eexists; (split; [reflexivity|]);
      do 2 eexists; repeat split; reflexivity. }
  destruct Hb as (hi & lo & -> & h & l & Hh & Hl & Hb).
  cbn [app unhexlify]. rewrite Hh, Hl, Hb.
  by destruct (unhexlify rest).
Qed.

Lemma fromhex_hexdigest (d : bytes) : fromhex (hexdigest d) = Some d.
Proof.
  unfold fromhex, hexdigest. rewrite list_ascii_of_string_of_list_ascii.
  induction d as [|b d IH]; [done|].
  change (concat (map hex_of_byte (b :: d)))
    with (hex_of_byte b ++ concat (map hex_of_byte d)).
  by rewrite unhexlify_hex_of_byte, IH.
Qed.

Section SignerMore.
Context {constants : BikaConstants} {hashlib : Hashlib}.

(** X1. Leading slashes do not count: however many slashes a path begins
    with, it is signed as the path without them, and a path made of
    slashes only is signed as the empty path; what is signed of the path
    never begins with a slash. *)
Theorem sign_ignores_leading_slashes (n : nat) (p : bytes)
    (timestamp_bytes nonce method : bytes) :
  _sign {| raw_path := replicate n x2f ++ p |} timestamp_bytes nonce method
  = _sign {| raw_path := lstrip (encode "/") p |} timestamp_bytes nonce method
  ∧ _sign {| raw_path := replicate n x2f |} timestamp_bytes nonce method
    = _sign {| raw_path := [] |} timestamp_bytes nonce method
  ∧ head (lstrip (encode "/") (replicate n x2f ++ p)) ≠ Some x2f.
Proof.
  split; [|split].
  - unfold _sign. simpl raw_path.
    by rewrite lstrip_slashes_prefix, lstrip_slash_idemp.
  - unfold _sign. simpl raw_path.
    rewrite <- (app_nil_r (replicate n x2f)).
    by rewrite lstrip_slashes_prefix.
  - apply lstrip_slash_head.
Qed.

(** X3. The fields are joined without separators: bytes can move across
    the boundary between the timestamp and the nonce, and between the
    nonce and the method, without changing the signature; and, for a
    path that is more than slashes, across the boundary between the path
    and the timestamp. *)
Theorem sign_has_no_field_separators (p x timestamp_bytes nonce method : bytes) :
  _sign {| raw_path := p |} (timestamp_bytes ++ x) nonce method
  = _sign {| raw_path := p |} timestamp_bytes (x ++ nonce) method
  ∧ _sign {| raw_path := p |} timestamp_bytes (nonce ++ x) method
    = _sign {| raw_path := p |} timestamp_bytes nonce (x ++ method)
  ∧ (lstrip (encode "/") p ≠ [] →
     _sign {| raw_path := p ++ x |} timestamp_bytes nonce method
     = _sign {| raw_path := p |} (x ++ timestamp_bytes) nonce method).
Proof.
  unfold _sign. simpl raw_path. split; [|split].
  - by rewrite <- !app_assoc.
  - by rewrite <- !app_assoc.
  - intros Hp. by rewrite (lstrip_slash_app _ _ Hp), <- !app_assoc.
Qed.

(** X4. The signature loses nothing of the digest: read back as
    hexadecimal it is the HMAC digest, it has two characters for each of
    its bytes, and two signatures are equal exactly when the digests
    are. *)
Theorem signature_determines_digest (url url' : URL)
    (timestamp_bytes nonce method timestamp_bytes' nonce' method' : bytes) :
  let mac u t n m :=
    hmac_new DIGEST_KEY
      (lower (lstrip (encode "/") (raw_path u) ++ t ++ n ++ m ++ API_KEY))
      sha256 in
  fromhex (_sign url timestamp_bytes nonce method)
  = Some (mac url timestamp_bytes nonce method)
  ∧ String.length (_sign url timestamp_bytes nonce method)
    = 2 * length (mac url timestamp_bytes nonce method)
  ∧ (_sign url timestamp_bytes nonce method
     = _sign url' timestamp_bytes' nonce' method'
     ↔ mac url timestamp_bytes nonce method
       = mac url' timestamp_bytes' nonce' method').
Proof.
  intros mac. split; [apply fromhex_hexdigest|].
  split; [apply hexdigest_length|]. split.
  - intros Heq. apply (f_equal fromhex) in Heq.
    unfold _sign in Heq. rewrite !fromhex_hexdigest in Heq.
    by injection Heq.
  - unfold _sign, mac. by intros ->.
Qed.

End SignerMore.

(** X2. Case counts in the digest key only. Two sets of inputs whose
    paths, timestamps, nonces, methods and API keys agree up to the case
    of ASCII letters, under the same digest key, get the same signature:
    [b"GET"] signs as [b"get"]. *)
Theorem sign_case_counts_in_digest_key_only (K K' : BikaConstants)
    (hashlib : Hashlib) (url url' : URL)
    (timestamp_bytes nonce method timestamp_bytes' nonce' method' : bytes) :
  @DIGEST_KEY K = @DIGEST_KEY K' →
  lower (@API_KEY K) = lower (@API_KEY K') →
  lower (raw_path url) = lower (raw_path url') →
  lower timestamp_bytes = lower timestamp_bytes' →
  lower nonce = lower nonce' →
  lower method = lower method' →
  @_sign K hashlib url timestamp_bytes nonce method
  = @_sign K' hashlib url' timestamp_bytes' nonce' method'.
Proof.
  intros Hd Hk Hp Ht Hn Hm. unfold _sign.
  rewrite Hd, !lower_app, <- !lstrip_slash_lower.
  by rewrite Hk, Hp, Ht, Hn, Hm.
Qed.

Lemma sign_case_counts_in_digest_key_only_witness :
  @_sign demo_constants demo_hashlib
     {| raw_path := encode "/Comics" |} (encode "17") (encode "5D")
     (encode "GET")
  = @_sign {| DIGEST_KEY := encode "Key"; API_KEY := encode "c69";
              API_HOST := "https://other" |} demo_hashlib
      {| raw_path := encode "/comics" |} (encode "17") (encode "5d")
      (encode "get").
Proof.
  apply sign_case_counts_in_digest_key_only; reflexivity.
Defined.

Lemma sign_has_no_field_separators_witness :
  @_sign demo_constants demo_hashlib
     {| raw_path := encode "/comics" ++ encode "/1" |}
     (encode "700") (encode "5d") (encode "GET")
  = @_sign demo_constants demo_hashlib
      {| raw_path := encode "/comics" |}
      (encode "/1" ++ encode "700") (encode "5d") (encode "GET").
Proof.
  apply (@sign_has_no_field_separators demo_constants demo_hashlib
           (encode "/comics") (encode "/1") (encode "700") (encode "5d")
           (encode "GET")).
  discriminate.
Defined.

Lemma signature_determines_digest_witness :
  @_sign demo_constants demo_hashlib
     {| raw_path := encode "/a" |} (encode "17") (encode "5d") (encode "GET")
  = @_sign demo_constants demo_hashlib
      {| raw_path := encode "//A" |} (encode "17") (encode "5D")
      (encode "get").
Proof.
  apply (@signature_determines_digest demo_constants demo_hashlib).
  reflexivity.
Defined.

(** * Further properties of [request] *)

Lemma encode_hexdigest (d : bytes) :
  encode (hexdigest d) = concat (map (fun b => map byte_of_ascii (hex_of_byte b)) d).
Proof.
  unfold encode, hexdigest, list_byte_of_string.
  rewrite list_ascii_of_string_of_list_ascii.
  induction d as [|b d IH]; [done|].
  change (concat (map hex_of_byte (b :: d)))
    with (hex_of_byte b ++ concat (map hex_of_byte d)).
  rewrite map_app, IH. done.
Qed.

(** A hexadecimal rendering is in lower case already. *)
Lemma lower_encode_hexdigest (d : bytes) :
  lower (encode (hexdigest d)) = encode (hexdigest d).
Proof.
  rewrite encode_hexdigest. induction d as [|b d IH]; [done|].
  cbn [map concat]. rewrite lower_app, IH. f_equal. by destruct b.
Qed.

Section RequestMore.
Context {constants : BikaConstants} {hashlib : Hashlib} {base : BaseEndpoint}.
Context {W : Type}.

#[local] Arguments _sign : simpl never.
#[local] Arguments hexdigest : simpl never.
#[local] Arguments encode : simpl never.
#[local] Arguments digest : simpl never.
#[local] Arguments _join : simpl never.
#[local] Arguments lower : simpl never.
#[local] Arguments lstrip : simpl never.

Ltac run_cases :=
  repeat first
    [ progress cbn
    | match goal with
      | |- context [bool_decide ?P] => destruct (bool_decide P) eqn:?
      | |- context [negb ?b] => is_var b; destruct b
      | |- context [net_login ?c ?w] =>
          destruct (net_login c w) as [[[]|?] ?] eqn:?
      | |- context [_join ?a ?b ?d] => destruct (_join a b d) as [?|?] eqn:?
      | |- context [client_get ?c ?u ?h ?w] =>
          destruct (client_get c u h w) as [[[[?|?]]|?] ?] eqn:?
      | |- context [client_post ?c ?u ?h ?b ?w] =>
          destruct (client_post c u h b w) as [[[[?|?]]|?] ?] eqn:?
      | |- context [match ?e with TransportError _ => _ | _ => _ end] =>
          is_var e; destruct e
      end ].

Ltac unfold_request :=
  unfold request, request_wrapped, disable_cache, with_cache,
    catch_network_error.

(** The nonce and the signature of a transport call, from its URL, its
    [Time] header and its method. *)
Lemma request_signature_from_time (c : Collab W) (endpoint : string)
    (params body : option Dict) (no_token : bool) (s : State W) :
  Forall (fun l =>
            ∀ url h, transport_url l = Some url → sent_headers l = Some h →
              Nonce h = encode (hexdigest (digest md5 (Time h)))
              ∧ Signature h
                = _sign url (Time h) (Nonce h)
                        (if is_post l then encode "POST" else encode "GET"))
         (labels_of (run c (request endpoint params body no_token) s)).
Proof.
  unfold_request.
  destruct body; run_cases.
  all: repeat (apply List.Forall_cons; [cbn; try done|]);
         try apply List.Forall_nil.
  all: by intros ? ? [= <-] [= <-].
Qed.

(** X5. The signature covers the URL, the timestamp and the method, and
    nothing else: two transport calls of [request], whatever token, image
    quality, body and collaborators they were made with, carry the same
    signature when they go to the same URL with the same method and the
    same [Time] header. *)
Theorem signature_covers_url_time_method_only (c c' : Collab W)
    (endpoint endpoint' : string) (params body params' body' : option Dict)
    (no_token no_token' : bool) (s s' : State W) (l l' : Label)
    (h h' : Headers) :
  l ∈ labels_of (run c (request endpoint params body no_token) s) →
  l' ∈ labels_of (run c' (request endpoint' params' body' no_token') s') →
  sent_headers l = Some h →
  sent_headers l' = Some h' →
  transport_url l = transport_url l' →
  is_post l = is_post l' →
  Time h = Time h' →
  Signature h = Signature h'.
Proof.
  intros Hl Hl' Hh Hh' Hurl Hpost Htime.
  pose proof (request_signature_from_time c endpoint params body no_token s)
    as Hr.
  pose proof (request_signature_from_time c' endpoint' params' body'
                no_token' s') as Hr'.
  rewrite Forall_forall in Hr, Hr'.
  assert (∃ url, transport_url l = Some url) as [url Hu]
    by (destruct l; try done; by eexists).
  destruct (Hr l Hl url h Hu Hh) as [Hn ->].
  rewrite Hurl in Hu. destruct (Hr' l' Hl' url h' Hu Hh') as [Hn' ->].
  by rewrite Hn, Hn', Htime, Hpost.
Qed.

(** X6. What the server has to recompute: the signature of a transport
    call is the hexadecimal HMAC, under the digest key, of the request
    target without its leading slashes in lower case, the [Time] header
    in lower case, the [Nonce] header as it is sent, the method as [get]
    or [post], and the API key in lower case. *)
Theorem request_signature_on_the_wire (c : Collab W) (endpoint : string)
    (params body : option Dict) (no_token : bool) (s : State W) :
  Forall signed_as_sent
         (labels_of (run c (request endpoint params body no_token) s)).
Proof.
  pose proof (request_signature_from_time c endpoint params body no_token s)
    as Hr.
  eapply Forall_impl; [exact Hr|].
  intros l Hl. destruct l; try done; cbn in *.
  all: destruct (Hl _ _ eq_refl eq_refl) as [Hn ->].
  all: unfold _sign, wire_signature.
  all: rewrite !lower_app, Hn, lower_encode_hexdigest.
  all: reflexivity.
Qed.

(** X7. [request] stops at the first failure. When the login it needs
    raises, it has read the token and called [login] and does nothing
    more: no clock, no transport call. When [_join] rejects the template,
    no transport call is made, although the login, if one was needed, has
    been made by then; with a token stored the state is left as it was. *)
Theorem request_stops_at_first_failure (c : Collab W) (endpoint : string)
    (params body : option Dict) (no_token : bool) (s : State W) :
  let r := run c (request endpoint params body no_token) s in
  let need := bool_decide (net_token c (world s) = None) && negb no_token in
  (∀ e w, need = true → net_login c (world s) = (Err e, w) →
     labels_of r = [LGetToken; LLogin]
     ∧ outcome_of r = Err (surfaced e)
     ∧ state_of r = set_world w s)
  ∧ (∀ e, _join API_HOST endpoint (default [] params) = Err e →
       count_labels is_transport (labels_of r) = 0
       ∧ (∃ e', outcome_of r = Err e')
       ∧ count_labels is_login (labels_of r) = (if need then 1 else 0)
       ∧ (need = false →
          outcome_of r = Err (surfaced e) ∧ state_of r = s
          ∧ labels_of r
            = [LGetToken; LGetToken; LTimeNow; LRequestHeaders])).
Proof.
  unfold_request.
  destruct body; run_cases.
  all: split; [intros e' w' Hneed Hlogin|intros e' Hjoin]; try done.
  all: try (injection Hlogin as <- <-).
  all: repeat split; try done; try (by eexists).
  all: try (by intros _; destruct s).
  all: try (by intros _; repeat split; destruct s).
  all: try (by destruct e').
Qed.

(** X8. The clock is read once, after the login: the [Time] header is the
    timestamp of the moment the headers are built, which after a login is
    the moment that login has completed, and no login follows the reading
    of the clock. *)
Theorem request_reads_clock_after_login (c : Collab W) (endpoint : string)
    (params body : option Dict) (no_token : bool) (s : State W) :
  let r := run c (request endpoint params body no_token) s in
  let need := bool_decide (net_token c (world s) = None) && negb no_token in
  let w1 := if need then (net_login c (world s)).2 else world s in
  (count_labels is_time_read (labels_of r) ≤ 1)%nat
  ∧ Forall (fun l => ∀ h, sent_headers l = Some h →
                          Time h = encode (time_0f c w1))
           (labels_of r)
  ∧ count_labels is_login (after_first is_time_read (labels_of r)) = 0.
Proof.
  unfold_request.
  destruct body; run_cases.
  all: split; [lia || done|]; split; [|done].
  all: repeat constructor; cbn; try done; by intros ? [= <-].
Qed.

End RequestMore.

(** * Further properties of calls on the event loop *)

Section LoopMore.
Context {constants : BikaConstants} {hashlib : Hashlib} {base : BaseEndpoint}.
Context {W : Type} (c : Collab W).

#[local] Arguments _sign : simpl never.
#[local] Arguments hexdigest : simpl never.
#[local] Arguments encode : simpl never.
#[local] Arguments digest : simpl never.
#[local] Arguments _join : simpl never.

Ltac run_cases :=
  repeat first
    [ progress cbn
    | match goal with
      | |- context [bool_decide ?P] => destruct (bool_decide P) eqn:?
      | |- context [negb ?b] => is_var b; destruct b
      | |- context [net_login ?c ?w] =>
          destruct (net_login c w) as [[[]|?] ?] eqn:?
      | |- context [_join ?a ?b ?d] => destruct (_join a b d) as [?|?] eqn:?
      | |- context [client_get ?c ?u ?h ?w] =>
          destruct (client_get c u h w) as [[[[?|?]]|?] ?] eqn:?
      | |- context [client_post ?c ?u ?h ?b ?w] =>
          destruct (client_post c u h b w) as [[[[?|?]]|?] ?] eqn:?
      | |- context [match ?e with TransportError _ => _ | _ => _ end] =>
          is_var e; destruct e
      end ].

(** X9. A call alone on the loop is the sequential run: [request] is
    suspended at most twice, on its login and on its transport call, and
    after three turns it has ended with the outcome, the state and the
    effects of the run. *)
Theorem lone_request_on_the_loop (endpoint : string)
    (params body : option Dict) (no_token : bool) (s : State W) :
  let r := run c (request endpoint params body no_token) s in
  let pl := schedule c
              {| tasks := [Runnable (request endpoint params body no_token)];
                 shared := s; issued := [] |}
              [0; 0; 0] in
  tasks pl = [Finished (outcome_of r)]
  ∧ shared pl = state_of r
  ∧ issued pl = labels_of r.
Proof.
  unfold request, request_wrapped, disable_cache, with_cache,
    catch_network_error, schedule, turn.
  destruct body; run_cases.
  all: done.
Qed.

(** The first turn of a call that finds a token: it issues no login and
    leaves the state as it was. *)
Lemma first_turn_set (a : RequestArgs) (s : State W) (t : string) :
  net_token c (world s) = Some t →
  ∃ tk tr, resume c (request_task a) s = (tk, s, tr)
           ∧ count_labels is_login tr = 0
           ∧ awaits_login tk = false.
Proof.
  intros Htok. destruct a as [[endpoint params] body].
  unfold request_task, request, request_wrapped, disable_cache, with_cache,
    catch_network_error.
  cbn. rewrite Htok. cbn.
  destruct (_join _ _ _) as [url|e]; cbn.
  - destruct body; cbn; by do 2 eexists.
  - destruct e; by do 2 eexists.
Qed.

Lemma schedule_with_token (s : State W) (t : string)
    (calls : list RequestArgs) (before : list (Task JSON))
    (log : list Label) :
  net_token c (world s) = Some t →
  ∃ ts tr,
    schedule c {| tasks := before ++ map request_task calls;
                  shared := s; issued := log |}
             (seq (length before) (length calls))
    = {| tasks := before ++ ts; shared := s; issued := log ++ tr |}
    ∧ count_labels is_login tr = 0
    ∧ Forall (fun tk => awaits_login tk = false) ts.
Proof.
  intros Htok. revert before log.
  induction calls as [|a calls IH]; intros before log.
  - exists [], []. cbn. by rewrite !app_nil_r.
  - destruct (first_turn_set a s t Htok) as (tk & tr & Hturn & Hcount & Hno).
    cbn [length seq map schedule foldl]. unfold turn at 2.
    cbn [tasks shared issued].
    rewrite lookup_app_r, Nat.sub_diag by done. cbn [lookup list_lookup].
    rewrite Hturn.
    replace (<[length before := tk]>
               (before ++ request_task a :: map request_task calls))
      with ((before ++ [tk]) ++ map request_task calls).
    2: { rewrite <- (Nat.add_0_r (length before)), insert_app_r.
         by rewrite <- app_assoc. }
    specialize (IH (before ++ [tk]) (log ++ tr)).
    rewrite length_app in IH. cbn [length] in IH.
    rewrite Nat.add_1_r in IH.
    destruct IH as (ts & tr' & Hsched & Hcount' & Hts).
    exists (tk :: ts), (tr ++ tr'). split; [|split].
    + unfold schedule in Hsched. rewrite Hsched.
      by rewrite <- !app_assoc.
    + by rewrite count_labels_app, Hcount, Hcount'.
    + by constructor.
Qed.

(** The two turns of a call whose login returns with a token stored. *)
Lemma login_turns (a : RequestArgs) (rest : list (Task JSON))
    (s : State W) (w : W) :
  net_token c (world s) = None →
  net_login c (world s) = (Ok tt, w) →
  ∃ tk tr,
    schedule c {| tasks := request_task a :: rest;
                  shared := s; issued := [] |} [0; 0]
    = {| tasks := tk :: rest; shared := set_world w s;
         issued := [LGetToken; LLogin] ++ tr |}
    ∧ count_labels is_login tr = 0
    ∧ awaits_login tk = false.
Proof.
  intros Htok Hlogin. destruct a as [[endpoint params] body].
  unfold request_task, request, request_wrapped, disable_cache, with_cache,
    catch_network_error, schedule, turn.
  cbn. rewrite Htok. cbn. rewrite Hlogin. cbn.
  destruct (_join _ _ _) as [url|e]; cbn.
  - destruct body; cbn; by do 2 eexists.
  - destruct e; by do 2 eexists.
Qed.

(** X10. One login serves the calls that come after it: when the first
    call finds no token, logs in, and its login returns with a token
    stored, the calls that take their first turn after that find the
    token and issue no login; one login is issued in all. *)
Theorem later_calls_share_the_token (a : RequestArgs)
    (calls : list RequestArgs) (s : State W) (w : W) (t : string) :
  net_token c (world s) = None →
  net_login c (world s) = (Ok tt, w) →
  net_token c w = Some t →
  let pl := schedule c (spawn (a :: calls) s)
              (0 :: 0 :: seq 1 (length calls)) in
  count_labels is_login (issued pl) = 1
  ∧ Forall (fun tk => awaits_login tk = false) (tasks pl)
  ∧ shared pl = set_world w s.
Proof.
  intros Htok Hlogin Hstored pl. subst pl. unfold spawn.
  cbn [map].
  change (0 :: 0 :: seq 1 (length calls))
    with ([0; 0] ++ seq 1 (length calls)).
  unfold schedule. rewrite foldl_app.
  destruct (login_turns a (map request_task calls) s w Htok Hlogin)
    as (tk & tr & Hfirst & Hcount & Hno).
  unfold schedule in Hfirst. rewrite Hfirst.
  destruct (schedule_with_token (set_world w s) t calls [tk]
              ([LGetToken; LLogin] ++ tr) Hstored)
    as (ts & tr' & Hsched & Hcount' & Hts).
  unfold schedule in Hsched. cbn [app length] in Hsched.
  change ([LGetToken; LLogin] ++ tr) with (LGetToken :: LLogin :: tr).
  rewrite Hsched. cbn [issued tasks shared].
  split; [|split; [|done]].
  - change (LGetToken :: LLogin :: tr ++ tr')
      with ([LGetToken; LLogin] ++ (tr ++ tr')).
    by rewrite !count_labels_app, Hcount, Hcount'.
  - by constructor.
Qed.

End LoopMore.

(** * Further properties of the operations and the enumerations *)

Section OperationMore.
Context {constants : BikaConstants} {hashlib : Hashlib} {base : BaseEndpoint}.
Context {W : Type} (c : Collab W).

#[local] Arguments _sign : simpl never.
#[local] Arguments hexdigest : simpl never.
#[local] Arguments encode : simpl never.
#[local] Arguments digest : simpl never.
#[local] Arguments _join : simpl never.

Ltac run_cases :=
  repeat first
    [ progress cbn
    | match goal with
      | |- context [bool_decide ?P] => destruct (bool_decide P) eqn:?
      | |- context [negb ?b] => is_var b; destruct b
      | |- context [net_login ?c ?w] =>
          destruct (net_login c w) as [[[]|?] ?] eqn:?
      | |- context [_join ?a ?b ?d] => destruct (_join a b d) as [?|?] eqn:?
      | |- context [client_get ?c ?u ?h ?w] =>
          destruct (client_get c u h w) as [[[[?|?]]|?] ?] eqn:?
      | |- context [client_post ?c ?u ?h ?b ?w] =>
          destruct (client_post c u h b w) as [[[[?|?]]|?] ?] eqn:?
      | |- context [match ?e with TransportError _ => _ | _ => _ end] =>
          is_var e; destruct e
      end ].

(** What one call of [request] does at most, and that it logs in when it
    finds no token. *)
Lemma request_call_counts (endpoint : string) (params body : option Dict)
    (s : State W) :
  let ls := labels_of (run c (request endpoint params body false) s) in
  (count_labels is_transport ls ≤ 1)%nat
  ∧ (count_labels is_login ls ≤ 1)%nat
  ∧ (count_labels is_time_read ls ≤ 1)%nat
  ∧ LGetToken ∈ ls
  ∧ (net_token c (world s) = None → LLogin ∈ ls).
Proof.
  unfold request, request_wrapped, disable_cache, with_cache,
    catch_network_error.
  destruct body; run_cases.
  all: repeat match goal with
       | H : bool_decide _ = false |- _ => apply bool_decide_eq_false in H
       end.
  all: split; [lia || done|]; split; [lia || done|]; split; [lia || done|].
  all: split; [by left|].
  all: intros Htok; try done.
  all: by right; left.
Qed.

(** The effects of a decorated operation: accesses to the cache around
    one run of the operation, or none, in a state that is the same
    outside the cache. *)
Lemma with_cache_shape (policy : CachePolicy) (op : Prog JSON)
    (s : State W) :
  ∃ s0 pre mid post,
    world s0 = world s
    ∧ labels_of (run c (with_cache policy op) s) = pre ++ mid ++ post
    ∧ (mid = [] ∨ mid = labels_of (run c op s0))
    ∧ Forall (fun l => is_cache_access l = true) pre
    ∧ Forall (fun l => is_cache_access l = true) post.
Proof.
  destruct policy as [T key|].
  2: { exists s, [], (labels_of (run c op s)), []. cbn.
       rewrite app_nil_r. repeat split; auto. }
  unfold with_cache. cbn. unfold cache_lookup.
  destruct (cache s !! key) as [[v expiry]|];
    [destruct (bool_decide _)|]; cbn.
  1: { exists s, [LCacheLookup key], [], []. repeat split; auto. }
  all: change (bind op ?f) with (op ≫= f); rewrite run_bind.
  all: match goal with |- context [run c ?p ?s0] =>
         exists s0, [LCacheLookup key], (labels_of (run c p s0));
         destruct (run c p s0) as [[[v'|e] s1] tr]
       end; cbn.
  all: unfold labels_of; cbn; rewrite ?map_app; cbn.
  all: first [ exists [LCacheStore key v' T] | exists [] ].
  all: rewrite ?app_nil_r; repeat split; auto.
Qed.

Lemma count_cache_accesses (f : Label → bool) (l : list Label) :
  (∀ x, is_cache_access x = true → f x = false) →
  Forall (fun x => is_cache_access x = true) l →
  count_labels f l = 0.
Proof.
  intros Hf. unfold count_labels. induction 1 as [|x l Hx _ IH]; [done|].
  cbn. by rewrite (Hf x Hx).
Qed.

(** X11. An operation calls out at most once: whatever the call, its
    arguments and the answers it gets, one invocation makes at most one
    login, one reading of the clock and one transport call, and none is
    repeated after a failure; and every operation that gets as far as
    reading the token while none is stored logs in: none of them passes
    [no_token]. *)
Theorem operations_call_out_at_most_once (call : Call) (s : State W) :
  let ls := labels_of (run c (invoke call) s) in
  (count_labels is_transport ls ≤ 1)%nat
  ∧ (count_labels is_login ls ≤ 1)%nat
  ∧ (count_labels is_time_read ls ≤ 1)%nat
  ∧ (net_token c (world s) = None → LGetToken ∈ ls → LLogin ∈ ls).
Proof.
  assert (Hop : ∃ policy endpoint params body,
            invoke call
            = with_cache policy (request endpoint params body false)).
  { destruct call; cbn [invoke].
    all: first
      [ by exists Exempt; do 3 eexists
      | by eexists (Cached _ _); do 3 eexists ]. }
  destruct Hop as (policy & endpoint & params & body & ->).
  destruct (with_cache_shape policy (request endpoint params body false) s)
    as (s0 & pre & mid & post & Hw & -> & Hmid & Hpre & Hpost).
  pose proof (request_call_counts endpoint params body s0)
    as (Htr & Hlog & Htime & _ & Hin).
  cbn zeta. rewrite !count_labels_app.
  rewrite !(count_cache_accesses _ pre), !(count_cache_accesses _ post);
    try done; try (by intros []).
  rewrite Hw in Hin.
  destruct Hmid as [->| ->].
  - repeat split; try (cbn; lia).
    intros _ Hget. rewrite app_nil_l in Hget.
    apply elem_of_app in Hget as [Hget|Hget].
    + rewrite Forall_forall in Hpre. by apply Hpre in Hget.
    + rewrite Forall_forall in Hpost. by apply Hpost in Hget.
  - repeat split; try lia.
    intros Htok _. apply elem_of_app. right. apply elem_of_app. left.
    by apply Hin.
Qed.

End OperationMore.

(** X12. A value names one member: looking up the value of a member of
    [EndpointsType], [ImageQuality] or [ResultSort] gives that member
    back, a lookup that succeeds gives a member with the value asked for,
    and a value that no member has, such as a sort code in upper case, is
    not found. *)
Theorem enum_members_by_value :
  (∀ m, EndpointsType_of_value (EndpointsType.value m) = Some m)
  ∧ (∀ m, ImageQuality_of_value (ImageQuality.value m) = Some m)
  ∧ (∀ m, ResultSort_of_value (ResultSort.value m) = Some m)
  ∧ (∀ v m, EndpointsType_of_value v = Some m → EndpointsType.value m = v)
  ∧ (∀ v m, ImageQuality_of_value v = Some m → ImageQuality.value m = v)
  ∧ (∀ v m, ResultSort_of_value v = Some m → ResultSort.value m = v)
  ∧ ResultSort_of_value "DD" = None
  ∧ ImageQuality_of_value "" = None.
Proof.
  repeat split; try (by intros []).
  all: intros v m Hfind; apply List.find_some in Hfind as [_ Heq].
  all: by apply String.eqb_eq in Heq.
Qed.

Lemma enum_members_by_value_witness :
  ResultSort.value ResultSort.like_descending = "ld".
Proof.
  apply enum_members_by_value. reflexivity.
Defined.

(** * Further worked examples *)

Lemma sign_ignores_leading_slashes_witness :
  @_sign demo_constants demo_hashlib
     {| raw_path := replicate 3 x2f ++ encode "comics" |}
     (encode "17") (encode "5d") (encode "GET")
  = @_sign demo_constants demo_hashlib
      {| raw_path := lstrip (encode "/") (encode "comics") |}
      (encode "17") (encode "5d") (encode "GET").
Proof.
  exact (proj1 (@sign_ignores_leading_slashes demo_constants demo_hashlib 3
                  (encode "comics") (encode "17") (encode "5d")
                  (encode "GET"))).
Defined.

(** Two POSTs at the same second, with different tokens, bodies and image
    qualities, carry the same signature. *)
Lemma signature_covers_url_time_method_only_witness :
  ∃ url h b url' h' b',
    labels_of (run demo_collab
                 (@request demo_constants demo_hashlib demo_endpoint
                    "comics/advanced-search" None
                    (Some [("keyword", VStr "a")]) false)
                 (demo_state (demo_with_token "one" demo_world))) !! 4
    = Some (LClientPost url h b)
    ∧ labels_of (run demo_collab
                   (@request demo_constants demo_hashlib demo_endpoint
                      "comics/advanced-search" None
                      (Some [("keyword", VStr "b"); ("page", VInt 2)]) true)
                   (demo_state (demo_with_quality "high" demo_world))) !! 4
      = Some (LClientPost url' h' b')
    ∧ Authorization h ≠ Authorization h'
    ∧ Image_Quality h ≠ Image_Quality h'
    ∧ b ≠ b'
    ∧ Signature h = Signature h'.
Proof.
  do 6 eexists. split; [reflexivity|]. split; [reflexivity|].
  split; [discriminate|]. split; [discriminate|]. split; [discriminate|].
  eapply (@signature_covers_url_time_method_only demo_constants
            demo_hashlib demo_endpoint _ demo_collab demo_collab
            "comics/advanced-search" "comics/advanced-search"
            None (Some [("keyword", VStr "a")])
            None (Some [("keyword", VStr "b"); ("page", VInt 2)])
            false true
            (demo_state (demo_with_token "one" demo_world))
            (demo_state (demo_with_quality "high" demo_world))).
  - eapply (list_elem_of_lookup_2 _ 4). reflexivity.
  - eapply (list_elem_of_lookup_2 _ 4). reflexivity.
  - reflexivity.
  - reflexivity.
  - reflexivity.
  - reflexivity.
  - reflexivity.
Defined.

Lemma request_signature_on_the_wire_witness :
  Forall (@signed_as_sent demo_constants demo_hashlib)
    (labels_of (run demo_collab
                  (@request demo_constants demo_hashlib demo_endpoint
                     "collections" None None false)
                  (demo_state demo_world))).
Proof.
  exact (@request_signature_on_the_wire demo_constants demo_hashlib
           demo_endpoint _ demo_collab "collections" None None false
           (demo_state demo_world)).
Defined.

(** A refused login ends the call at once; a template that [_join]
    rejects ends it before the network is reached. *)
Lemma request_stops_at_first_failure_witness :
  labels_of (run demo_collab
               (@request demo_constants demo_hashlib demo_endpoint
                  "collections" None None false)
               (demo_state (demo_with_logins [Err AuthError] demo_world)))
  = [LGetToken; LLogin]
  ∧ count_labels is_transport
      (labels_of (run demo_collab
                    (@request demo_constants demo_hashlib
                       demo_failing_endpoint "comics/{id}" None None false)
                    (demo_state (demo_with_token "tok" demo_world))))
    = 0
  ∧ state_of (run demo_collab
                (@request demo_constants demo_hashlib
                   demo_failing_endpoint "comics/{id}" None None false)
                (demo_state (demo_with_token "tok" demo_world)))
    = demo_state (demo_with_token "tok" demo_world).
Proof.
  split; [|split].
  - pose proof (@request_stops_at_first_failure demo_constants demo_hashlib
                  demo_endpoint _ demo_collab "collections" None None false
                  (demo_state (demo_with_logins [Err AuthError] demo_world)))
      as (Hlogin & _).
    eapply Hlogin; reflexivity.
  - pose proof (@request_stops_at_first_failure demo_constants demo_hashlib
                  demo_failing_endpoint _ demo_collab "comics/{id}"
                  None None false
                  (demo_state (demo_with_token "tok" demo_world)))
      as (_ & Hjoin).
    eapply Hjoin; reflexivity.
  - pose proof (@request_stops_at_first_failure demo_constants demo_hashlib
                  demo_failing_endpoint _ demo_collab "comics/{id}"
                  None None false
                  (demo_state (demo_with_token "tok" demo_world)))
      as (_ & Hjoin).
    eapply Hjoin; reflexivity.
Defined.

Lemma request_reads_clock_after_login_witness :
  ∃ url h,
    labels_of (run demo_collab
                 (@request demo_constants demo_hashlib demo_endpoint
                    "collections" None None false)
                 (demo_state demo_world)) !! 5
    = Some (LClientGet url h)
    ∧ Time h = encode "1700000000".
Proof.
  pose proof (@request_reads_clock_after_login demo_constants demo_hashlib
                demo_endpoint _ demo_collab "collections" None None false
                (demo_state demo_world))
    as (_ & Htime & _).
  do 2 eexists. split; [reflexivity|].
  exact (Forall_lookup_1 _ _ 5 _ Htime eq_refl _ eq_refl).
Defined.

Lemma lone_request_on_the_loop_witness :
  issued (schedule demo_collab
            {| tasks := [Runnable (@request demo_constants demo_hashlib
                                     demo_endpoint "collections" None None
                                     false)];
               shared := demo_state demo_world; issued := [] |}
            [0; 0; 0])
  = labels_of (run demo_collab
                 (@request demo_constants demo_hashlib demo_endpoint
                    "collections" None None false)
                 (demo_state demo_world)).
Proof.
  apply (@lone_request_on_the_loop demo_constants demo_hashlib
           demo_endpoint _ demo_collab "collections" None None false
           (demo_state demo_world)).
Defined.

(** Three calls, of which the first has logged in before the others
    start: one login. *)
Lemma later_calls_share_the_token_witness :
  count_labels is_login
    (issued (schedule demo_collab
               (@spawn demo_constants demo_hashlib demo_endpoint _
                  [("collections", None, None); ("categories", None, None);
                   ("keywords", None, None)]
                  (demo_state demo_world))
               [0; 0; 1; 2]))
  = 1.
Proof.
  apply (@later_calls_share_the_token demo_constants demo_hashlib
           demo_endpoint _ demo_collab
           ("collections", None, None)
           [("categories", None, None); ("keywords", None, None)]
           (demo_state demo_world)
           (net_login demo_collab demo_world).2 "tok");
    reflexivity.
Defined.

Lemma operations_call_out_at_most_once_witness :
  LLogin ∈ labels_of (run demo_collab
                        (@invoke demo_constants demo_hashlib demo_endpoint
                           (ComicPage "abc" 1 2))
                        (demo_state demo_world)).
Proof.
  apply (@operations_call_out_at_most_once demo_constants demo_hashlib
           demo_endpoint _ demo_collab (ComicPage "abc" 1 2)
           (demo_state demo_world)).
  - reflexivity.
  - eapply (list_elem_of_lookup_2 _ 0). reflexivity.
Defined.
